(** * Semantic search engine: cache-aware indexing, retrieval, ranking
      and explanation

    A shallow embedding of the Python pipeline
    ([explainer.py], [ranker.py], [cache_manager.py], [embedder.py],
    [search_engine.py], [query_pipeline.py], [api.py], [preprocess.py])
    together with the properties its specification states about it and
    further properties of the code.

    Conventions of the embedding:
    - Python [str] is [string]; the texts are taken to be ASCII, so that
      [\w] is [[A-Za-z0-9_]] and [str.lower] only touches [A-Z].  A
      statement about what these tables classify says so with
      [ascii_text].
    - Python [int] is [Z]; [len] results are [nat].
    - A finite float is a rational number, and comparing two finite floats
      is comparing them as rationals: scores and stored vector components
      are [Q].  Where the source needs [math.log] or a square root the
      value is a real number ([R]).
    - A [dict] used as a map is a [gmap]; a [dict] whose insertion order is
      observed ([list(d.values())]) is an association list.
    - An exception is a value of [exn]; code that can raise returns
      [result]. *)

From Stdlib Require Import ZArith QArith Reals Lra Lia.
From Stdlib Require Import Strings.String Strings.Ascii.
From Stdlib Require Import Structures.OrdersEx.
From stdpp Require Import base tactics option list gmap strings pretty sorting.

Local Open Scope string_scope.
Local Open Scope Z_scope.
Local Open Scope list_scope.

(** ** Exceptions and fallible results *)

Inductive exn : Type :=
| RuntimeError (msg : string)
| KeyError (key : string)
| ValueError (msg : string)
| AssertionError (msg : string)
| FileNotFoundError (path : string)
| UnicodeDecodeError.

Inductive result (A : Type) : Type :=
| Ok (a : A)
| Raise (e : exn).
Arguments Ok {A} a.
Arguments Raise {A} e.

Definition bind {A B} (r : result A) (k : A -> result B) : result B :=
  match r with
  | Ok a => k a
  | Raise e => Raise e
  end.

Notation "x <-! r ; k" := (bind r (fun x => k))
  (at level 100, r at next level, right associativity).

(** ** Python built-ins used by the code *)

(** [l[:k]]: a negative bound counts from the end. *)
Definition slice_to {A} (l : list A) (k : Z) : list A :=
  if k <? 0 then take (Z.to_nat (Z.max 0 (Z.of_nat (length l) + k))) l
  else take (Z.to_nat k) l.

(** [sorted(l, key=...)] is a stable sort.  [before x y] says that the key
    of [x] does not come after the key of [y] in the requested direction:
    [key x <= key y] for an ascending sort, [key x >= key y] with
    [reverse=True].  An element is inserted in front of the first element
    it may precede, so elements with equal keys keep their input order in
    both directions, as Python guarantees. *)
Section Sorted.
Context {A : Type} (before : A -> A -> bool).

Fixpoint insert_sorted (x : A) (l : list A) : list A :=
  match l with
  | [] => [x]
  | y :: l' => if before x y then x :: y :: l' else y :: insert_sorted x l'
  end.

Definition sorted (l : list A) : list A := foldr insert_sorted [] l.

End Sorted.

(** Order of [str] values: lexicographic on code points. *)
Definition str_le (s t : string) : bool :=
  match String_as_OT.compare s t with
  | Gt => false
  | _ => true
  end.

(** * The explainer ([explainer.py]) *)

Module Explainer.

Definition _STOPWORDS : gset string :=
  list_to_set
    ["the"; "is"; "in"; "and"; "of"; "a"; "an"; "to"; "for"; "on"; "with";
     "that"; "this"; "it"; "as"; "are"; "be"; "by"; "or"; "from"; "at";
     "was"; "which"; "we"; "you"].

(** [\w] on ASCII text: a digit, a letter or the underscore. *)
Definition is_word_char (c : ascii) : bool :=
  let n := nat_of_ascii c in
  ((48 <=? n) && (n <=? 57) || (65 <=? n) && (n <=? 90)
   || (n =? 95) || (97 <=? n) && (n <=? 122))%nat.

Definition lower_char (c : ascii) : ascii :=
  let n := nat_of_ascii c in
  if ((65 <=? n) && (n <=? 90))%nat then ascii_of_nat (n + 32) else c.

Fixpoint lower (s : string) : string :=
  match s with
  | EmptyString => EmptyString
  | String c s' => String (lower_char c) (lower s')
  end.

Definition flush (cur : string) : list string :=
  match cur with
  | EmptyString => []
  | _ => [cur]
  end.

(** [_TOKEN_RE.findall]: the maximal runs of word characters, left to
    right; [cur] is the run being read. *)
Fixpoint findall (cur : string) (s : string) : list string :=
  match s with
  | EmptyString => flush cur
  | String c s' =>
      if is_word_char c then findall (cur +:+ String c EmptyString) s'
      else flush cur ++ findall EmptyString s'
  end.

Definition simple_tokenize (text : string) : list string :=
  match text with
  | EmptyString => []
  | _ => findall EmptyString (lower text)
  end.

Definition extract_keywords (text : string) (use_stopwords : bool)
  : list string :=
  let tokens := simple_tokenize text in
  if use_stopwords then filter (fun t => t ∉ _STOPWORDS) tokens
  else tokens.

(** The sort key [(-(x in d_set), x)] and the order of such tuples. *)
Definition overlap_key (d_set : gset string) (x : string) : Z * string :=
  (- (if bool_decide (x ∈ d_set) then 1 else 0), x).

Definition tuple_le (k1 k2 : Z * string) : bool :=
  (k1.1 <? k2.1) || (k1.1 =? k2.1) && str_le k1.2 k2.2.

Definition keyword_overlap (query doc_text : string) (top_n : Z)
  : list string * Q :=
  let q_keywords := extract_keywords query true in
  match q_keywords with
  | [] => ([], 0%Q)
  | _ =>
      let q_set : gset string := list_to_set q_keywords in
      let d_keywords := extract_keywords doc_text true in
      let d_set : gset string := list_to_set d_keywords in
      let overlap := q_set ∩ d_set in
      let overlap_list :=
        sorted (fun x y => tuple_le (overlap_key d_set x) (overlap_key d_set y))
               (elements overlap) in
      let overlap_ratio :=
        (inject_Z (Z.of_nat (size overlap))
         / inject_Z (Z.of_nat (Nat.max 1 (size q_set))))%Q in
      (slice_to overlap_list top_n, overlap_ratio)
  end.

(** [explain_match] calls [keyword_overlap] with the default [top_n]. *)
Definition default_top_n : Z := 10.

Definition doc_length_norm (doc_text : string) : R :=
  let tokens := simple_tokenize doc_text in
  let n := Nat.max 1 (length tokens) in
  (1 / (1 + ln (INR (1 + n))))%R.

(** The dict [explain_match] returns. *)
Record Explanation : Type := {
  e_why_matched : string;
  e_overlap_keywords : list string;
  e_overlap_ratio : Q;
  e_doc_length_norm : R
}.

Definition SEMANTIC_ONLY : string :=
  "Matched by semantic similarity (no exact keyword overlap).".

Section Rounding.
(** [round(x, 4)] on the ratio and on the length norm. *)
Variable round_ratio : Q -> Q.
Variable round_norm : R -> R.

Definition explain_match (query doc_text : string) : Explanation :=
  let '(overlap_list, overlap_ratio) :=
    keyword_overlap query doc_text default_top_n in
  let length_norm := doc_length_norm doc_text in
  let why :=
    match overlap_list with
    | [] => SEMANTIC_ONLY
    | _ =>
        "Matched because query keywords "
        +:+ String.concat ", " (slice_to overlap_list 5)
        +:+ " appear in the document."
    end in
  {| e_why_matched := why;
     e_overlap_keywords := overlap_list;
     e_overlap_ratio := round_ratio overlap_ratio;
     e_doc_length_norm := round_norm length_norm |}.

End Rounding.

End Explainer.

(** * Shared records *)

(** An embedding as it is stored: a sequence of finite floats. *)
Definition vec : Type := list Q.

(** SearchCandidate: [{"doc_id": ..., "score": ..., "path": ...}]. *)
Record Candidate : Type := {
  r_doc_id : string;
  r_score : Q;
  r_path : string
}.

(** DocumentMeta: [{"doc_id", "path", "hash", "length"}]. *)
Record DocumentMeta : Type := {
  m_doc_id : string;
  m_path : string;
  m_hash : string;
  m_length : Z
}.

(** CacheEntry: [{"doc_id", "embedding", "hash", "updated_at"}].  Such a
    dict is never empty, so it is truthy wherever the code tests it. *)
Record CacheEntry : Type := {
  c_doc_id : string;
  c_embedding : vec;
  c_hash : string;
  c_updated_at : Z
}.

(** * The ranker ([ranker.py]) *)

Module Ranker.

(** [key=lambda x: x["score"], reverse=True]: [x] may precede [y] when
    its score is at least that of [y]. *)
Definition score_ge (x y : Candidate) : bool :=
  Qle_bool (r_score y) (r_score x).

Definition rerank (results : list Candidate) (top_k : Z) : list Candidate :=
  let ranked := sorted score_ge results in
  slice_to ranked top_k.

End Ranker.

(** * The embedding cache ([cache_manager.py]) *)

Module CacheManager.

(** What [_load] finds at the cache path, by what the standard library
    does with it:
    - [Missing]: [path.exists()] is false;
    - [Undecodable]: the bytes are not UTF-8, reading the text-mode file
      inside [json.load] raises [UnicodeDecodeError];
    - [Unparseable]: the text is not JSON, [json.load] raises
      [json.JSONDecodeError];
    - [Stored]: the file holds the mapping written by [save]. *)
Inductive cache_file : Type :=
| Missing
| Undecodable (bytes : list Z)
| Unparseable (text : string)
| Stored (data : gmap string CacheEntry).

Record t : Type := {
  file : cache_file;
  _data : gmap string CacheEntry
}.

(** [try: json.load(f) except json.JSONDecodeError: {}]: the handler
    catches the parse error only. *)
Definition _load (f : cache_file) : result (gmap string CacheEntry) :=
  match f with
  | Missing => Ok ∅
  | Undecodable _ => Raise UnicodeDecodeError
  | Unparseable _ => Ok ∅
  | Stored data => Ok data
  end.

(** [CacheManager(path)] *)
Definition init (f : cache_file) : result t :=
  data <-! _load f;
  Ok {| file := f; _data := data |}.

Definition save (cm : t) : t :=
  {| file := Stored (_data cm); _data := _data cm |}.

Definition get (cm : t) (doc_id : string) : option CacheEntry :=
  _data cm !! doc_id.

(** [now] is the value of [int(time.time())] at the call. *)
Definition set (cm : t) (doc_id : string) (embedding : vec)
    (hash_str : string) (now : Z) : t :=
  save {| file := file cm;
          _data := <[doc_id :=
                      {| c_doc_id := doc_id; c_embedding := embedding;
                         c_hash := hash_str; c_updated_at := now |}]>
                   (_data cm) |}.

Definition bulk_get_changed (cm : t) (metas : list DocumentMeta)
  : gmap string (option CacheEntry) :=
  foldl (fun result meta =>
           let doc_id := m_doc_id meta in
           match get cm doc_id with
           | Some cached =>
               if String.eqb (c_hash cached) (m_hash meta)
               then <[doc_id := Some cached]> result
               else <[doc_id := None]> result
           | None => <[doc_id := None]> result
           end)
        ∅ metas.

Definition clear (cm : t) : t :=
  save {| file := file cm; _data := ∅ |}.

End CacheManager.

(** * The embedding provider ([embedder.py])

    The arithmetic of the normalisation, over the reals.  A quotient is
    [None] when its divisor is zero. *)

Module Embedder.

Definition divide (x n : R) : option R :=
  if Req_dec_T n 0 then None else Some (x / n)%R.

(** [np.linalg.norm] of one row. *)
Definition norm (v : list R) : R :=
  sqrt (foldr (fun x acc => x * x + acc)%R 0%R v).

Definition divide_row (v : list R) (n : R) : option (list R) :=
  mapM (fun x => divide x n) v.

Section Model.
(** [self.model.encode], one row per text. *)
Variable encode : string -> list R.

Definition _normalize (vectors : list (list R)) : option (list (list R)) :=
  let norms := map norm vectors in
  let norms := map (fun n => if Req_dec_T n 0 then 1%R else n) norms in
  mapM (fun vn => divide_row vn.1 vn.2) (zip vectors norms).

Definition embed_texts (texts : list string) : option (list (list R)) :=
  let emb := map encode texts in
  _normalize emb.

Definition embed_query (query : string) : option (list R) :=
  let vec := encode query in
  let norm := norm vec in
  if Req_dec_T norm 0 then Some vec
  else divide_row vec norm.

End Model.

(** ** Construction ([Embedder.__init__]) *)

(** What one call of [SentenceTransformer(...)] ends in: the model, a
    [TypeError], or another [Exception]. *)
Inductive load_outcome (M : Type) : Type :=
| Loaded (model : M)
| RaisesTypeError
| RaisesException.
Arguments Loaded {M} model.
Arguments RaisesTypeError {M}.
Arguments RaisesException {M}.

(** The calls [__init__] makes to the outside. *)
Inductive call : Type :=
| LoadByName (attempt : Z)
| Sleep (seconds : Z)
| ImportHub
| SnapshotDownload
| LoadLocal.

(** The outside of one construction: what the [attempt]-th load by name
    ends in, whether [huggingface_hub] can be imported, whether the local
    folder already holds the model with its [config.json], whether the
    download goes through, and what loading from the local folder gives
    ([None] for an exception). *)
Record World (M : Type) : Type := {
  by_name : Z -> load_outcome M;
  hub_importable : bool;
  local_dir_ready : bool;
  download_ok : bool;
  from_local : option M
}.
Arguments by_name {M} w attempt.
Arguments hub_importable {M} w.
Arguments local_dir_ready {M} w.
Arguments download_ok {M} w.
Arguments from_local {M} w.

(** A computation that makes calls and ends in a value or an exception:
    its outcome and the calls it made, in order. *)
Definition io (A : Type) : Type := result A * list call.

Definition ret {A} (a : A) : io A := (Ok a, []).

Definition throw {A} (e : exn) : io A := (Raise e, []).

Definition perform (c : call) : io unit := (Ok tt, [c]).

Definition io_bind {A B} (m : io A) (k : A -> io B) : io B :=
  match m.1 with
  | Ok a => ((k a).1, m.2 ++ (k a).2)
  | Raise e => (Raise e, m.2)
  end.

Notation "x <-: m ; k" := (io_bind m (fun x => k))
  (at level 100, m at next level, right associativity).

(** [time.sleep] refuses a negative length. *)
Definition sleep (seconds : Z) : io unit :=
  _ <-: perform (Sleep seconds);
  if seconds <? 0 then throw (ValueError "sleep length must be non-negative")
  else ret tt.

(** [range(start, stop)]. *)
Definition range (start stop : Z) : list Z :=
  (fun i => start + Z.of_nat i) <$> seq 0 (Z.to_nat (stop - start)).

Section Init.
Context {M : Type} (w : World M).
Variable retries retry_delay : Z.

(** The [for attempt in range(1, retries + 1)] loop over the attempts that
    are left; the value is [self.model] after the loop. *)
Fixpoint load_by_name (attempts : list Z) : io (option M) :=
  match attempts with
  | [] => ret None
  | attempt :: rest =>
      _ <-: perform (LoadByName attempt);
      match by_name w attempt with
      | Loaded model => ret (Some model)
      | RaisesTypeError => ret None
      | RaisesException =>
          _ <-: (if attempt =? retries then ret tt else sleep retry_delay);
          load_by_name rest
      end
  end.

(** The fallback taken when [self.model is None] after the loop. *)
Definition fallback : io M :=
  _ <-: perform ImportHub;
  _ <-: (if hub_importable w then ret tt
         else throw (RuntimeError
                ("huggingface_hub is required for fallback download. "
                 +:+ "Install it with: pip install huggingface_hub")));
  _ <-: (if local_dir_ready w then ret tt
         else
           _ <-: perform SnapshotDownload;
           if download_ok w then ret tt
           else throw (RuntimeError
                  "Failed to download model via huggingface_hub.snapshot_download"));
  _ <-: perform LoadLocal;
  match from_local w with
  | Some model => ret model
  | None =>
      throw (RuntimeError
               "Failed to initialize SentenceTransformer from local_folder")
  end.

Definition init : io M :=
  model <-: load_by_name (range 1 (retries + 1));
  match model with
  | Some model => ret model
  | None => fallback
  end.

End Init.

End Embedder.

(** * The search engine ([search_engine.py]) *)

Module SearchEngine.

(** The provider as the engine uses it: [embed_texts] for a batch of
    documents, [embed_query] for one query. *)
Record Embedder : Type := {
  embed_texts : list string -> list vec;
  embed_query : string -> vec
}.

(** [metadata.json] as loaded: a dict from doc_id to meta, in file order. *)
Definition Metadata : Type := list (string * DocumentMeta).

Fixpoint dict_get {V} (d : list (string * V)) (k : string) : option V :=
  match d with
  | [] => None
  | (k', v) :: d' => if String.eqb k' k then Some v else dict_get d' k
  end.

(** [faiss.IndexFlatIP(dim)] after [add]: the dimension and the rows. *)
Record FaissIndex : Type := {
  d : nat;
  rows : list vec
}.

(** The two files under [vector_store/]; [id_map.json] has string keys. *)
Record VectorStore : Type := {
  index_file : option FaissIndex;
  idmap_file : option (gmap string string)
}.

Record t : Type := {
  embedder : Embedder;
  cache : CacheManager.t;
  metadata : Metadata;
  index : option FaissIndex;
  id_map : option (gmap string string)
}.

Definition IDMAP_PATH : string := "vector_store/id_map.json".

(** [for meta in all_docs: open(meta["path"]).read()] over the document
    files [fs]. *)
Fixpoint read_texts (fs : string -> option string) (all_docs : list DocumentMeta)
  : result (list string) :=
  match all_docs with
  | [] => Ok []
  | meta :: rest =>
      match fs (m_path meta) with
      | None => Raise (FileNotFoundError (m_path meta))
      | Some text => texts <-! read_texts fs rest; Ok (text :: texts)
      end
  end.

Definition enumerate {A} (l : list A) : list (nat * A) :=
  imap (fun i x => (i, x)) l.

(** The first loop of [build_index]: the state is
    [(embeddings, to_compute, compute_indices)]. *)
Definition check_cache_step (cm : CacheManager.t) (texts : list string)
    (st : list (option vec) * list string * list nat)
    (im : nat * DocumentMeta)
  : list (option vec) * list string * list nat :=
  let '(embeddings, to_compute, compute_indices) := st in
  let '(i, meta) := im in
  match CacheManager.get cm (m_doc_id meta) with
  | Some cached =>
      (embeddings ++ [Some (c_embedding cached)], to_compute, compute_indices)
  | None =>
      (embeddings ++ [None], to_compute ++ [texts !!! i], compute_indices ++ [i])
  end.

Definition check_cache (cm : CacheManager.t) (all_docs : list DocumentMeta)
    (texts : list string)
  : list (option vec) * list string * list nat :=
  foldl (check_cache_step cm texts) ([], [], []) (enumerate all_docs).

(** The second loop, over [zip(compute_indices, new_embs)]: the state is
    the cache, [embeddings] and the number of cache writes so far;
    [clock k] is the time read at write [k]. *)
Definition store_step (all_docs : list DocumentMeta) (clock : nat -> Z)
    (st : CacheManager.t * list (option vec) * nat) (ie : nat * vec)
  : CacheManager.t * list (option vec) * nat :=
  let '(cm, embeddings, k) := st in
  let '(idx, emb) := ie in
  match all_docs !! idx with
  | Some doc_meta =>
      (CacheManager.set cm (m_doc_id doc_meta) emb (m_hash doc_meta) (clock k),
       <[idx := Some emb]> embeddings, S k)
  | None => st
  end.

(** [np.vstack]: needs at least one row, every row an array, all of one
    length. *)
Definition vstack (embeddings : list (option vec)) : result (list vec) :=
  match mapM (fun e => e) embeddings with
  | None => Raise (ValueError "all the input arrays must have same shape")
  | Some [] => Raise (ValueError "need at least one array to concatenate")
  | Some (r :: rs) =>
      if forallb (fun v => Nat.eqb (length v) (length r)) rs
      then Ok (r :: rs)
      else Raise (ValueError "all the input arrays must have same shape")
  end.

(** [json.dump] writes the integer keys of [id_map] as decimal strings. *)
Definition dump_keys (m : gmap Z string) : gmap string string :=
  kmap (pretty : Z -> string) m.

(** What a completed [build_index] leaves behind: the cache, the two
    files, and what was sent to the provider. *)
Record Built : Type := {
  b_cache : CacheManager.t;
  b_index : FaissIndex;
  b_id_map : gmap Z string;
  b_store : VectorStore;
  b_compute_indices : list nat;
  b_to_compute : list string
}.

Definition build_index (eng : t) (fs : string -> option string)
    (clock : nat -> Z) : result Built :=
  let all_docs := snd <$> metadata eng in
  let doc_ids := m_doc_id <$> all_docs in
  texts <-! read_texts fs all_docs;
  let '(embeddings, to_compute, compute_indices) :=
    check_cache (cache eng) all_docs texts in
  let '(cm, embeddings, _) :=
    match to_compute with
    | [] => (cache eng, embeddings, 0%nat)
    | _ =>
        let new_embs := embed_texts (embedder eng) to_compute in
        foldl (store_step all_docs clock) (cache eng, embeddings, 0%nat)
              (zip compute_indices new_embs)
    end in
  embeddings <-! vstack embeddings;
  let dim := match embeddings with r :: _ => length r | [] => 0%nat end in
  let index := {| d := dim; rows := embeddings |} in
  let id_map : gmap Z string :=
    list_to_map (imap (fun i doc_id => (Z.of_nat i, doc_id)) doc_ids) in
  Ok {| b_cache := cm;
        b_index := index;
        b_id_map := id_map;
        b_store := {| index_file := Some index;
                      idmap_file := Some (dump_keys id_map) |};
        b_compute_indices := compute_indices;
        b_to_compute := to_compute |}.

(** The engine after [build_index]: [self.cache] has been written to,
    [self.index] and [self.id_map] are as before. *)
Definition with_cache (eng : t) (cm : CacheManager.t) : t :=
  {| embedder := embedder eng; cache := cm; metadata := metadata eng;
     index := index eng; id_map := id_map eng |}.

Definition load_index (eng : t) (store : VectorStore) : result t :=
  match index_file store with
  | None => Raise (RuntimeError "FAISS index missing. Run build_index() first.")
  | Some idx =>
      match idmap_file store with
      | None => Raise (FileNotFoundError IDMAP_PATH)
      | Some m =>
          Ok {| embedder := embedder eng; cache := cache eng;
                metadata := metadata eng; index := Some idx; id_map := Some m |}
      end
  end.

(** The inner product, as an exact sum.  [IndexFlatIP] adds in float32, so
    the score it reports is this sum up to rounding: the statements about
    [search] use the order of the scores, never their values. *)
Definition dot (u v : vec) : Q :=
  foldr Qplus 0%Q (zip_with Qmult u v).

(** The score FAISS reports for a missing neighbour: [-FLT_MAX]. *)
Definition NO_SCORE : Q := - inject_Z (2 ^ 128 - 2 ^ 104).

(** [IndexFlatIP.search] for one query: the [k] best inner products with
    their positions, best first; when the index holds fewer than [k]
    rows the result is filled up to length [k] with the label [-1].
    Among rows of equal score the library promises no order; here they
    come by increasing position, and no statement rests on that. *)
Definition faiss_search (ix : FaissIndex) (qvec : vec) (k : Z)
  : result (list (Q * Z)) :=
  if negb (Nat.eqb (length qvec) (d ix))
  then Raise (AssertionError "d == self.d")
  else if k <=? 0 then Raise (AssertionError "k > 0")
  else
    let scored := imap (fun i v => (dot qvec v, Z.of_nat i)) (rows ix) in
    let best :=
      take (Z.to_nat k) (sorted (fun x y => Qle_bool y.1 x.1) scored) in
    Ok (best ++ replicate (Z.to_nat k - length best) (NO_SCORE, -1)).

Definition lookup_key {V} (found : option V) (key : string) : result V :=
  match found with
  | Some v => Ok v
  | None => Raise (KeyError key)
  end.

(** The result loop of [search]. *)
Fixpoint resolve (idm : gmap string string) (md : Metadata)
    (hits : list (Q * Z)) : result (list Candidate) :=
  match hits with
  | [] => Ok []
  | (score, idx) :: rest =>
      doc_id <-! lookup_key (idm !! pretty idx) (pretty idx);
      meta <-! lookup_key (dict_get md doc_id) doc_id;
      results <-! resolve idm md rest;
      Ok ({| r_doc_id := doc_id; r_score := score; r_path := m_path meta |}
          :: results)
  end.

Definition search (eng : t) (query : string) (top_k : Z)
  : result (list Candidate) :=
  match index eng, id_map eng with
  | Some ix, Some idm =>
      let qvec := embed_query (embedder eng) query in
      hits <-! faiss_search ix qvec top_k;
      resolve idm (metadata eng) hits
  | _, _ => Raise (RuntimeError "Index not loaded. Call load_index() first.")
  end.

(** [SearchEngine()]: the provider and the cache manager are constructed
    first, then [metadata.json] is read; [metadata_file] is what that file
    holds, if it exists.  The index and the id map start unloaded. *)
Definition init (provider : result Embedder) (cf : CacheManager.cache_file)
    (metadata_file : option Metadata) : result t :=
  embedder <-! provider;
  cache <-! CacheManager.init cf;
  match metadata_file with
  | None =>
      Raise (FileNotFoundError
               "Metadata file not found. Run preprocessing first.")
  | Some md =>
      Ok {| embedder := embedder; cache := cache; metadata := md;
            index := None; id_map := None |}
  end.

End SearchEngine.

(** * The query pipeline ([query_pipeline.py]) *)

Module QueryPipeline.

Record t : Type := {
  search_engine : SearchEngine.t;
  metadata : SearchEngine.Metadata
}.

(** One item of the list [query] returns. *)
Record Item : Type := {
  q_doc_id : string;
  q_score : Q;
  q_path : string;
  q_snippet : string
}.

(** [QueryPipeline()]: construct the engine, load the index, read the
    metadata file once more. *)
Definition init (provider : result SearchEngine.Embedder)
    (cf : CacheManager.cache_file)
    (metadata_file : option SearchEngine.Metadata)
    (store : SearchEngine.VectorStore) : result t :=
  eng <-! SearchEngine.init provider cf metadata_file;
  eng <-! SearchEngine.load_index eng store;
  match metadata_file with
  | None =>
      Raise (RuntimeError
               "metadata.json not found. Run preprocessing + metadata creation first.")
  | Some md => Ok {| search_engine := eng; metadata := md |}
  end.

(** [text[:230]] *)
Fixpoint take_chars (n : nat) (s : string) : string :=
  match n, s with
  | S n', String c s' => String c (take_chars n' s')
  | _, _ => EmptyString
  end.

(** [.replace("\n", " ")] *)
Fixpoint replace_newlines (s : string) : string :=
  match s with
  | EmptyString => EmptyString
  | String c s' =>
      String (if Ascii.eqb c "010"%char then " "%char else c)
             (replace_newlines s')
  end.

Definition FILE_NOT_FOUND : string := "[File not found]".

Definition snippet_of (fs : string -> option string) (path : string) : string :=
  match fs path with
  | None => FILE_NOT_FOUND
  | Some text => replace_newlines (take_chars 230 text)
  end.

Section Rounding.
(** [round(score, 4)] *)
Variable round_score : Q -> Q.

Definition query (qp : t) (fs : string -> option string)
    (query : string) (top_k : Z) : result (list Item) :=
  results <-! SearchEngine.search (search_engine qp) query top_k;
  let ranked := Ranker.rerank results top_k in
  Ok ((fun item =>
         {| q_doc_id := r_doc_id item;
            q_score := round_score (r_score item);
            q_path := r_path item;
            q_snippet := snippet_of fs (r_path item) |}) <$> ranked).

End Rounding.

End QueryPipeline.

(** * The HTTP endpoint ([api.py]) *)

Module Api.

(** One element of the response's [results]. *)
Record ResultItem : Type := {
  a_doc_id : string;
  a_score : Q;
  a_preview : string;
  a_explanation : Explainer.Explanation
}.

(** What a request ends in: the response body, an [HTTPException], or an
    exception leaving the handler. *)
Inductive response : Type :=
| Results (results : list ResultItem)
| HTTPException (status_code : Z) (detail : string)
| Failed (e : exn).

(** White space as [str.strip] sees it on ASCII text. *)
Definition is_space (c : ascii) : bool :=
  let n := nat_of_ascii c in
  ((9 <=? n) && (n <=? 13) || (28 <=? n) && (n <=? 32))%nat.

Fixpoint lstrip (s : string) : string :=
  match s with
  | EmptyString => EmptyString
  | String c s' => if is_space c then lstrip s' else s
  end.

(** [rstrip]: a character stays when it is no white space or something
    stays after it. *)
Fixpoint rstrip (s : string) : string :=
  match s with
  | EmptyString => EmptyString
  | String c s' =>
      match rstrip s' with
      | EmptyString => if is_space c then EmptyString else String c EmptyString
      | rest => String c rest
      end
  end.

Definition strip (s : string) : string := rstrip (lstrip s).

(** [get_pipeline]: the module-level [_pipeline] is constructed at the
    first use; [construct] is [QueryPipeline()]. *)
Definition get_pipeline (_pipeline : option QueryPipeline.t)
    (construct : result QueryPipeline.t)
  : result (QueryPipeline.t * option QueryPipeline.t) :=
  match _pipeline with
  | None => p <-! construct; Ok (p, Some p)
  | Some p => Ok (p, Some p)
  end.

Section Rounding.
Variable round_score : Q -> Q.
Variable round_ratio : Q -> Q.
Variable round_norm : R -> R.

(** The [/search] handler; the second component is [_pipeline] after the
    request.  Reading a document for its explanation falls back to the
    empty text on any error. *)
Definition search (_pipeline : option QueryPipeline.t)
    (construct : result QueryPipeline.t) (fs : string -> option string)
    (query : string) (top_k : Z) : response * option QueryPipeline.t :=
  if String.eqb query "" || String.eqb (strip query) ""
  then (HTTPException 400 "Query must be non-empty", _pipeline)
  else
    match get_pipeline _pipeline construct with
    | Raise e => (Failed e, _pipeline)
    | Ok (pipeline, _pipeline') =>
        match QueryPipeline.query round_score pipeline fs query top_k with
        | Raise e => (Failed e, _pipeline')
        | Ok results =>
            (Results
               ((fun r =>
                   let doc_text := default "" (fs (QueryPipeline.q_path r)) in
                   {| a_doc_id := QueryPipeline.q_doc_id r;
                      a_score := QueryPipeline.q_score r;
                      a_preview := QueryPipeline.q_snippet r;
                      a_explanation :=
                        Explainer.explain_match round_ratio round_norm
                          query doc_text |}) <$> results),
             _pipeline')
        end
    end.

End Rounding.

End Api.

(** * Preprocessing ([preprocess.py]) *)

Module Preprocess.

Definition DATA_DIR : string := "data/docs".

(** The files below the working directory that hold text: path and
    content.  [write_text] sets an entry, [read_text] reads one. *)
Definition Files : Type := gmap string string.

(** [_HTML_TAG_RE = re.compile(r"<[^>]+>")].  [to_gt] is how far
    [[^>]*>] reaches from the head of [s]: up to and including the first
    [>]. *)
Fixpoint to_gt (s : string) : option nat :=
  match s with
  | EmptyString => None
  | String c s' => if Ascii.eqb c ">" then Some 1%nat else S <$> to_gt s'
  end.

(** The length of the match of the pattern at the head of [s]: [<], one
    character other than [>], then as far as the first [>]. *)
Definition match_tag (s : string) : option nat :=
  match s with
  | String c0 (String c1 s') =>
      if Ascii.eqb c0 "<" && negb (Ascii.eqb c1 ">")
      then (fun n => S (S n)) <$> to_gt s'
      else None
  | _ => None
  end.

(** [_HTML_TAG_RE.sub(" ", s)]: the matches are taken from left to right
    and do not overlap; [skip] counts the characters of [s] that still
    belong to the match just replaced. *)
Fixpoint sub_tags (skip : nat) (s : string) : string :=
  match s with
  | EmptyString => EmptyString
  | String c s' =>
      match skip with
      | S n => sub_tags n s'
      | O =>
          match match_tag s with
          | Some len => String " " (sub_tags (len - 1) s')
          | None => String c (sub_tags 0 s')
          end
      end
  end.

Definition strip_html (text : string) : string := sub_tags 0 text.

(** [re.sub(r"\s+", " ", s)]: every run of white space becomes one space;
    [in_run] says that the character before was white space. *)
Fixpoint collapse (in_run : bool) (s : string) : string :=
  match s with
  | EmptyString => EmptyString
  | String c s' =>
      if Api.is_space c
      then if in_run then collapse true s' else String " " (collapse true s')
      else String c (collapse false s')
  end.

Definition clean_text (text : string) : string :=
  if String.eqb text "" then ""
  else
    let text := strip_html text in
    let text := Explainer.lower text in
    let text := Api.strip (collapse false text) in
    text.

(** [f"{n:03d}"] for a count: its decimal digits, padded with zeros to
    three characters. *)
Definition format_03d (n : nat) : string :=
  let digits := pretty n in
  string_of_list_ascii (replicate (3 - String.length digits) "0"%char)
  +:+ digits.

Definition doc_path (doc_id : string) : string :=
  DATA_DIR +:+ "/" +:+ doc_id +:+ ".txt".

(** The loop of [save_docs] over the raw documents that are left. *)
Fixpoint save_loop (limit : Z) (data : list string) (saved : nat)
    (files : Files) : nat * Files :=
  match data with
  | [] => (saved, files)
  | raw :: rest =>
      if limit <=? Z.of_nat saved then (saved, files)
      else
        let text := clean_text raw in
        if String.eqb text "" then save_loop limit rest saved files
        else
          let saved := S saved in
          let doc_id := "doc_" +:+ format_03d saved in
          save_loop limit rest saved (<[doc_path doc_id := text]> files)
  end.

(** [save_docs]; [dataset] is what [fetch_20newsgroups] returns in
    [.data]. *)
Definition save_docs (dataset : list string) (limit : Z) (files : Files)
  : nat * Files :=
  save_loop limit dataset 0 files.

End Preprocess.

(** * A small corpus

    Two documents, a provider that embeds a text as the pair of its token
    count and 1, and a cache that still holds the vector of an earlier
    version of [doc_001]. *)

Module Demo.

Definition provider : SearchEngine.Embedder :=
  {| SearchEngine.embed_texts :=
       fmap (fun text =>
               [inject_Z (Z.of_nat (length (Explainer.simple_tokenize text)));
                1%Q]);
     SearchEngine.embed_query := fun query =>
       [inject_Z (Z.of_nat (length (Explainer.simple_tokenize query))); 1%Q] |}.

Definition doc_001 : DocumentMeta :=
  {| m_doc_id := "doc_001"; m_path := "data/docs/doc_001.txt";
     m_hash := "9f2c"; m_length := 29 |}.

Definition doc_002 : DocumentMeta :=
  {| m_doc_id := "doc_002"; m_path := "data/docs/doc_002.txt";
     m_hash := "41ab"; m_length := 16 |}.

Definition corpus : SearchEngine.Metadata :=
  [("doc_001", doc_001); ("doc_002", doc_002)].

Definition fs (path : string) : option string :=
  if String.eqb path "data/docs/doc_001.txt"
  then Some "quantum physics of the atom"
  else if String.eqb path "data/docs/doc_002.txt"
  then Some "cooking with rice"
  else None.

Definition clock (k : nat) : Z := 1700000000 + Z.of_nat k.

(** The entry written when [doc_001] had other content: another hash and
    another vector. *)
Definition stale_entry : CacheEntry :=
  {| c_doc_id := "doc_001"; c_embedding := [2%Q; 1%Q];
     c_hash := "0d7e"; c_updated_at := 1600000000 |}.

Definition stale_cache : CacheManager.t :=
  {| CacheManager.file := CacheManager.Stored {[ "doc_001" := stale_entry ]};
     CacheManager._data := {[ "doc_001" := stale_entry ]} |}.

(** An entry for [doc_002] stored under its current hash. *)
Definition warm_entry : CacheEntry :=
  {| c_doc_id := "doc_002"; c_embedding := [3%Q; 1%Q];
     c_hash := "41ab"; c_updated_at := 1650000000 |}.

Definition warm_cache : CacheManager.t :=
  {| CacheManager.file := CacheManager.Stored {[ "doc_002" := warm_entry ]};
     CacheManager._data := {[ "doc_002" := warm_entry ]} |}.

Definition empty_cache : CacheManager.t :=
  {| CacheManager.file := CacheManager.Missing; CacheManager._data := ∅ |}.

Definition engine (cm : CacheManager.t) : SearchEngine.t :=
  {| SearchEngine.embedder := provider; SearchEngine.cache := cm;
     SearchEngine.metadata := corpus;
     SearchEngine.index := None; SearchEngine.id_map := None |}.

(** Three candidates, the first and the third with equal scores. *)
Definition three_candidates : list Candidate :=
  [ {| r_doc_id := "doc_001"; r_score := 1 # 2; r_path := "data/docs/doc_001.txt" |};
    {| r_doc_id := "doc_002"; r_score := 3 # 4; r_path := "data/docs/doc_002.txt" |};
    {| r_doc_id := "doc_003"; r_score := 2 # 4; r_path := "data/docs/doc_003.txt" |} ].

(** The files a build from the empty cache writes, and the engine that
    has loaded them. *)
Definition built_store : SearchEngine.VectorStore :=
  match SearchEngine.build_index (engine empty_cache) fs clock with
  | Ok b => SearchEngine.b_store b
  | Raise _ => {| SearchEngine.index_file := None;
                  SearchEngine.idmap_file := None |}
  end.

Definition loaded_engine : SearchEngine.t :=
  match SearchEngine.load_index (engine empty_cache) built_store with
  | Ok eng => eng
  | Raise _ => engine empty_cache
  end.

(** A construction whose first two loads by name fail on the network and
    whose third succeeds; the model is named by a string. *)
Definition flaky_hub : Embedder.World string :=
  {| Embedder.by_name := fun attempt =>
       if attempt =? 3 then Embedder.Loaded "all-MiniLM-L6-v2"
       else Embedder.RaisesException;
     Embedder.hub_importable := true;
     Embedder.local_dir_ready := false;
     Embedder.download_ok := false;
     Embedder.from_local := None |}.

(** Three raw documents: one with tags, one of white space only, one with
    capitals and a double space. *)
Definition dataset : list string :=
  ["<b>Rice</b> and beans"; "   "; "Quantum  PHYSICS"].

End Demo.

(** * Vocabulary of the statements *)

(** The decision [bulk_get_changed] takes for one meta. *)
Definition reconciled (cm : CacheManager.t) (meta : DocumentMeta) : option CacheEntry :=
  match CacheManager.get cm (m_doc_id meta) with
  | Some cached =>
      if String.eqb (c_hash cached) (m_hash meta) then Some cached else None
  | None => None
  end.

Definition reconcile_step (cm : CacheManager.t) (result : gmap string (option CacheEntry))
    (meta : DocumentMeta) : gmap string (option CacheEntry) :=
  <[m_doc_id meta := reconciled cm meta]> result.

(** The sum under the square root of [norm]. *)
Definition sum_squares (v : list R) : R :=
  foldr (fun x acc => x * x + acc)%R 0%R v.

(** The divisor [_normalize] uses for a row. *)
Definition divisor (v : list R) : R :=
  if Req_dec_T (Embedder.norm v) 0 then 1%R else Embedder.norm v.

(** A query [str.strip] reduces to nothing: every character is white
    space. *)
Definition blank (query : string) : Prop :=
  Forall (fun c => Api.is_space c = true) (list_ascii_of_string query).

(** A text of ASCII characters only.  On such a text [str.strip] removes
    exactly the characters of [Api.is_space]. *)
Definition ascii_text (s : string) : Prop :=
  Forall (fun c => (nat_of_ascii c < 128)%nat) (list_ascii_of_string s).

(** The calls of the attempts [1 .. k-1] when each fails and is followed
    by a wait. *)
Definition failed_attempts (retry_delay k : Z) : list Embedder.call :=
  Embedder.range 1 k
    ≫= (fun j => [Embedder.LoadByName j; Embedder.Sleep retry_delay]).

(** A call of the fallback path of [Embedder.__init__]. *)
Definition fallback_call (c : Embedder.call) : Prop :=
  c = Embedder.ImportHub \/ c = Embedder.SnapshotDownload
  \/ c = Embedder.LoadLocal.

(** No tag is left in [s]: the pattern of [strip_html] matches at no
    position. *)
Fixpoint tag_free (s : string) : Prop :=
  match s with
  | EmptyString => True
  | String _ s' => Preprocess.match_tag s = None /\ tag_free s'
  end.

(** The white space of [s] is single spaces: every white-space character
    is a space and has no white space before it; [prev_space] says whether
    white space comes before the head of [s]. *)
Fixpoint spaced (prev_space : bool) (s : string) : bool :=
  match s with
  | EmptyString => true
  | String c s' =>
      if Api.is_space c
      then Ascii.eqb c " " && negb prev_space && spaced true s'
      else spaced false s'
  end.

Fixpoint ends_in_space (s : string) : bool :=
  match s with
  | EmptyString => false
  | String c EmptyString => Api.is_space c
  | String _ s' => ends_in_space s'
  end.

(** A cleaned text: no tag, no upper-case letter, words separated by
    single spaces, no white space at either end. *)
Definition clean (s : string) : Prop :=
  tag_free s
  /\ Forall (fun c => Explainer.lower_char c = c) (list_ascii_of_string s)
  /\ spaced true s = true
  /\ ends_in_space s = false.

(** The documents [save_docs] keeps: the cleaned texts that are not
    empty, in the order of the dataset. *)
Definition cleaned (dataset : list string) : list string :=
  filter (fun text => text <> "") (Preprocess.clean_text <$> dataset).

(** The path [save_docs] gives its [n]-th document, counting from 1. *)
Definition saved_path (n : nat) : string :=
  Preprocess.doc_path ("doc_" +:+ Preprocess.format_03d n).

(** * Properties of the built-ins *)

Section SortedFacts.
Context {A : Type} (before : A -> A -> bool).

Lemma insert_sorted_perm (x : A) (l : list A) :
  insert_sorted before x l ≡ₚ x :: l.
Proof.
  induction l as [|y l IH]; simpl; [done|].
  destruct (before x y); [done|].
  rewrite IH. apply Permutation_swap.
Qed.

Lemma sorted_perm (l : list A) : sorted before l ≡ₚ l.
Proof.
  induction l as [|x l IH]; simpl; [done|].
  rewrite insert_sorted_perm. by f_equiv.
Qed.

Lemma sorted_length (l : list A) : length (sorted before l) = length l.
Proof. by rewrite sorted_perm. Qed.

(** Inserting [x] passes only elements that [x] may not precede; when
    [P] holds only of elements that may precede each other, none of the
    passed elements satisfies it. *)
Lemma filter_insert_sorted (P : A -> bool) (x : A) (l : list A) :
  (forall a b, P a = true -> P b = true -> before a b = true) ->
  List.filter P (insert_sorted before x l) = List.filter P (x :: l).
Proof.
  intros HP. induction l as [|y l IH]; [done|].
  simpl. destruct (before x y) eqn:Hxy; [done|].
  simpl. rewrite IH. simpl.
  destruct (P x) eqn:Hx, (P y) eqn:Hy; try done.
  rewrite (HP x y Hx Hy) in Hxy. done.
Qed.

(** Stability: the elements of one key class come out in input order. *)
Lemma sorted_stable (P : A -> bool) (l : list A) :
  (forall a b, P a = true -> P b = true -> before a b = true) ->
  List.filter P (sorted before l) = List.filter P l.
Proof.
  intros HP. induction l as [|x l IH]; [done|].
  simpl. rewrite filter_insert_sorted by done.
  simpl. by rewrite IH.
Qed.

Hypothesis before_total : forall x y, before x y = true \/ before y x = true.
Hypothesis before_trans :
  forall x y z, before x y = true -> before y z = true -> before x z = true.

Lemma insert_sorted_StronglySorted (x : A) (l : list A) :
  StronglySorted (fun a b => before a b = true) l ->
  StronglySorted (fun a b => before a b = true) (insert_sorted before x l).
Proof.
  induction 1 as [|y l Hl IH Hy]; simpl.
  - repeat constructor.
  - destruct (before x y) eqn:Hxy.
    + constructor; [by constructor|].
      constructor; [done|].
      eapply Forall_impl; [exact Hy|]. intros z Hz. by eapply before_trans.
    + constructor; [done|].
      rewrite insert_sorted_perm. constructor; [|done].
      destruct (before_total x y) as [H'|H']; [congruence|done].
Qed.

Lemma sorted_StronglySorted (l : list A) :
  StronglySorted (fun a b => before a b = true) (sorted before l).
Proof.
  induction l as [|x l IH]; simpl; [constructor|].
  by apply insert_sorted_StronglySorted.
Qed.

End SortedFacts.

Section SliceFacts.
Context {A : Type}.

Lemma slice_to_prefix (l : list A) (k : Z) :
  exists rest, l = slice_to l k ++ rest.
Proof.
  unfold slice_to. destruct (k <? 0); eexists; symmetry; apply take_drop.
Qed.

Lemma slice_to_length (l : list A) (k : Z) :
  0 <= k -> Z.of_nat (length (slice_to l k)) <= k.
Proof.
  intros Hk. unfold slice_to.
  destruct (Z.ltb_spec k 0) as [?|_]; [lia|].
  rewrite length_take. lia.
Qed.

Lemma slice_to_nonneg (l : list A) (k : Z) :
  0 <= k -> slice_to l k = take (Z.to_nat k) l.
Proof.
  intros Hk. unfold slice_to. destruct (Z.ltb_spec k 0); [lia|done].
Qed.

Lemma StronglySorted_prefix (R : A -> A -> Prop) (l1 l2 : list A) :
  StronglySorted R (l1 ++ l2) -> StronglySorted R l1.
Proof.
  induction l1 as [|x l1 IH]; simpl; [constructor|].
  intros H. apply StronglySorted_inv in H as [H1 H2].
  constructor; [by apply IH|].
  by apply Forall_app in H2 as [? _].
Qed.

Lemma StronglySorted_weaken (R1 R2 : A -> A -> Prop) (l : list A) :
  (forall a b, R1 a b -> R2 a b) ->
  StronglySorted R1 l -> StronglySorted R2 l.
Proof.
  intros HR. induction 1 as [|x l _ IH Hx]; constructor; [done|].
  eapply Forall_impl; [exact Hx|]. auto.
Qed.

End SliceFacts.

(** * Ranker *)

Section RankerFacts.
Import Ranker.

Lemma score_ge_total (x y : Candidate) :
  score_ge x y = true \/ score_ge y x = true.
Proof.
  unfold score_ge. rewrite !Qle_bool_iff.
  destruct (Qlt_le_dec (r_score x) (r_score y)) as [H|H]; [right|left]; [|done].
  by apply Qlt_le_weak.
Qed.

Lemma score_ge_trans (x y z : Candidate) :
  score_ge x y = true -> score_ge y z = true -> score_ge x z = true.
Proof.
  unfold score_ge. rewrite !Qle_bool_iff. intros H1 H2. eapply Qle_trans; eassumption.
Qed.

Lemma rerank_prefix (results : list Candidate) (top_k : Z) :
  exists rest, sorted score_ge results = rerank results top_k ++ rest.
Proof. apply slice_to_prefix. Qed.

(** C6 (as amended): for every candidate list and every [top_k >= 0] the
    result of [rerank] has length at most [top_k]; for every [top_k] it is
    drawn from the input (it is the front of a rearrangement of the
    input), its scores are non-increasing from first to last, and the
    result is a function of the two arguments alone. *)
Theorem rerank_sorted_truncated (results : list Candidate) (top_k : Z) :
  (0 <= top_k -> Z.of_nat (length (rerank results top_k)) <= top_k)
  /\ (exists rest, rerank results top_k ++ rest ≡ₚ results)
  /\ StronglySorted (fun a b => (r_score b <= r_score a)%Q)
                    (rerank results top_k)
  /\ rerank results top_k = rerank results top_k.
Proof.
  destruct (rerank_prefix results top_k) as [rest Hrest].
  split_and!.
  - apply slice_to_length.
  - exists rest. rewrite <- Hrest. apply sorted_perm.
  - pose proof (sorted_StronglySorted score_ge score_ge_total score_ge_trans
                  results) as Hs.
    rewrite Hrest in Hs. apply StronglySorted_prefix in Hs.
    eapply StronglySorted_weaken; [|exact Hs].
    intros a b Hab. by apply Qle_bool_iff.
  - reflexivity.
Qed.

Example rerank_three :
  map r_doc_id (rerank Demo.three_candidates 2) = ["doc_002"; "doc_001"].
Proof. reflexivity. Qed.

Lemma rerank_sorted_truncated_witness :
  0 <= 2 /\ Z.of_nat (length (rerank Demo.three_candidates 2)) <= 2.
Proof.
  split; [lia|].
  apply (rerank_sorted_truncated Demo.three_candidates 2). lia.
Defined.

(** C6, counterexample: [ranked[:-1]] drops the last candidate only, so
    with three candidates and [top_k = -1] two are returned, more than
    [top_k]. *)
Lemma rerank_negative_top_k :
  rerank Demo.three_candidates (-1) = take 2 (sorted score_ge Demo.three_candidates)
  /\ ~ (Z.of_nat (length (rerank Demo.three_candidates (-1))) <= -1).
Proof. split; [reflexivity|]. cbn. lia. Qed.

(** C9: [rerank] is stable.  For every score [s], the candidates of score
    [s] that are returned are, in the same order, the first candidates of
    score [s] of the input: equal-score candidates keep their original
    relative order. *)
Theorem rerank_stable (results : list Candidate) (top_k : Z) (s : Q) :
  exists rest,
    List.filter (fun c => Qeq_bool (r_score c) s) results
    = List.filter (fun c => Qeq_bool (r_score c) s) (rerank results top_k)
      ++ rest.
Proof.
  destruct (rerank_prefix results top_k) as [rest Hrest].
  exists (List.filter (fun c => Qeq_bool (r_score c) s) rest).
  rewrite <- List.filter_app, <- Hrest.
  symmetry. apply sorted_stable.
  intros a b Ha Hb. apply Qeq_bool_iff in Ha, Hb.
  unfold score_ge. apply Qle_bool_iff. rewrite Ha, Hb. apply Qle_refl.
Qed.

Example rerank_ties :
  map r_doc_id (rerank Demo.three_candidates 3) = ["doc_002"; "doc_001"; "doc_003"].
Proof. reflexivity. Qed.

End RankerFacts.

(** * Explainer *)

Section StringOrder.

Lemma str_le_iff (s t : string) :
  str_le s t = true <-> s = t \/ String_as_OT.lt s t.
Proof.
  unfold str_le.
  destruct (String_as_OT.compare_spec s t) as [H|H|H];
    split; try done; auto.
  intros [->|H']; exfalso.
  - by apply (irreflexivity String_as_OT.lt t).
  - apply (irreflexivity String_as_OT.lt t). by etransitivity.
Qed.

Lemma str_le_total (s t : string) : str_le s t = true \/ str_le t s = true.
Proof.
  rewrite !str_le_iff.
  destruct (String_as_OT.compare_spec s t) as [H|H|H]; auto.
Qed.

Lemma str_le_trans (s t u : string) :
  str_le s t = true -> str_le t u = true -> str_le s u = true.
Proof.
  rewrite !str_le_iff. intros [->|H1] [->|H2]; auto.
  right. by etransitivity.
Qed.

End StringOrder.

Section ExplainerFacts.
Import Explainer.

Lemma tuple_le_total (k1 k2 : Z * string) :
  tuple_le k1 k2 = true \/ tuple_le k2 k1 = true.
Proof.
  unfold tuple_le. destruct k1 as [a s], k2 as [b t]; simpl.
  destruct (Z.ltb_spec a b), (Z.ltb_spec b a); simpl; auto; try lia.
  assert (a = b) as -> by lia. rewrite Z.eqb_refl. simpl.
  apply str_le_total.
Qed.

Lemma tuple_le_trans (k1 k2 k3 : Z * string) :
  tuple_le k1 k2 = true -> tuple_le k2 k3 = true -> tuple_le k1 k3 = true.
Proof.
  unfold tuple_le. destruct k1 as [a s], k2 as [b t], k3 as [c u]; simpl.
  rewrite !orb_true_iff, !andb_true_iff, !Z.ltb_lt, !Z.eqb_eq.
  intros [H1|[H1 H1']] [H2|[H2 H2']]; try (left; lia).
  right. split; [lia|]. by eapply str_le_trans.
Qed.

(** A list sorted by a total order and free of repetitions is strictly
    sorted. *)
Lemma StronglySorted_strict {A} (R S : A -> A -> Prop) (l : list A) :
  (forall a b, a ∈ l -> b ∈ l -> R a b -> a <> b -> S a b) ->
  NoDup l -> StronglySorted R l -> StronglySorted S l.
Proof.
  intros HRS Hnd Hs. induction Hs as [|x l Hs IH Hx]; [constructor|].
  apply NoDup_cons in Hnd as [Hx' Hnd].
  constructor.
  - apply IH; [|done]. intros a b Ha Hb. apply HRS; by right.
  - apply Forall_forall. intros y Hy.
    rewrite Forall_forall in Hx.
    apply HRS; [by left|by right|by apply Hx|].
    intros ->. done.
Qed.

Lemma ratio_bounds (a b : nat) :
  (a <= b)%nat -> (0 < b)%nat ->
  (0 <= inject_Z (Z.of_nat a) / inject_Z (Z.of_nat b) <= 1)%Q.
Proof.
  intros Hab Hb.
  assert (0 < inject_Z (Z.of_nat b))%Q as Hpos.
  { replace 0%Q with (inject_Z 0) by done. rewrite <- Zlt_Qlt. lia. }
  split.
  - apply Qle_shift_div_l; [done|].
    rewrite Qmult_0_l. replace 0%Q with (inject_Z 0) by done.
    rewrite <- Zle_Qle. lia.
  - apply Qle_shift_div_r; [done|].
    rewrite Qmult_1_l. rewrite <- Zle_Qle. lia.
Qed.

Lemma overlap_list_spec (q_set d_set : gset string) :
  let full := sorted (fun x y => tuple_le (overlap_key d_set x) (overlap_key d_set y))
                (elements (q_set ∩ d_set)) in
  (forall x, x ∈ full <-> x ∈ q_set /\ x ∈ d_set)
  /\ StronglySorted String_as_OT.lt full
  /\ length full = size (q_set ∩ d_set).
Proof.
  intros full.
  assert (full ≡ₚ elements (q_set ∩ d_set)) as Hperm by apply sorted_perm.
  split_and!.
  - intros x. by rewrite Hperm, elem_of_elements, elem_of_intersection.
  - eapply (StronglySorted_strict
              (fun x y => tuple_le (overlap_key d_set x) (overlap_key d_set y) = true)).
    + intros a b Ha Hb Hab Hne.
      rewrite Hperm in Ha, Hb. apply elem_of_elements in Ha, Hb.
      apply elem_of_intersection in Ha as [_ Ha], Hb as [_ Hb].
      unfold tuple_le, overlap_key in Hab. simpl in Hab.
      rewrite !bool_decide_eq_true_2 in Hab by done.
      simpl in Hab. apply str_le_iff in Hab as [?|?]; done.
    + rewrite Hperm. apply NoDup_elements.
    + apply sorted_StronglySorted.
      * intros x y. apply tuple_le_total.
      * intros x y z. apply tuple_le_trans.
  - by rewrite Hperm.
Qed.

(** C7: with the default [top_n = 10], [keyword_overlap] returns as
    keywords the first ten entries of [full], the intersection of the
    stopword-filtered query tokens and the stopword-filtered document
    tokens listed once each in strictly increasing (alphabetical) order;
    the ratio is the size of the intersection over the size of the query
    keyword set and lies between 0 and 1; an empty filtered query gives
    [([], 0)] without any division. *)
Theorem keyword_overlap_spec (query doc_text : string) :
  let q := extract_keywords query true in
  let d := extract_keywords doc_text true in
  let out := keyword_overlap query doc_text default_top_n in
  (q = [] -> out = ([], 0%Q))
  /\ (exists full : list string,
        (forall x, x ∈ full <-> x ∈ q /\ x ∈ d)
        /\ StronglySorted String_as_OT.lt full
        /\ out.1 = take 10 full
        /\ (q <> [] ->
            (out.2 == inject_Z (Z.of_nat (length full))
                      / inject_Z (Z.of_nat (size (list_to_set q : gset string))))%Q))
  /\ (length out.1 <= 10)%nat
  /\ (0 <= out.2 <= 1)%Q.
Proof.
  intros q d out. subst out. unfold keyword_overlap, default_top_n.
  fold q. fold d.
  pose proof (overlap_list_spec (list_to_set q) (list_to_set d))
    as (Hmem & Hsorted & Hlen).
  destruct q as [|t q'] eqn:Hq.
  - split; [done|]. split; [|split; [simpl; lia|done]].
    exists []. split_and!; [|constructor|done|done].
    intros x. rewrite elem_of_nil. tauto.
  - set (q_set := list_to_set (t :: q') : gset string) in *.
    set (d_set := list_to_set d : gset string) in *.
    set (full := sorted _ _) in *.
    assert (0 < size q_set)%nat as Hpos.
    { assert (size q_set <> 0%nat); [|lia].
      apply size_non_empty_iff. intros Hempty.
      apply (not_elem_of_empty (C:=gset string) t). rewrite <- Hempty.
      apply elem_of_list_to_set. by left. }
    assert (size (q_set ∩ d_set) <= size q_set)%nat as Hle.
    { apply subseteq_size. intros x Hx.
      by apply elem_of_intersection in Hx as [? _]. }
    split; [done|]. split; [|split].
    + exists full. split_and!; [|done|by rewrite slice_to_nonneg|].
      * intros x. rewrite Hmem. subst q_set d_set.
        by rewrite !elem_of_list_to_set.
      * intros _. simpl. rewrite Hlen.
        replace (Nat.max 1 (size q_set)) with (size q_set) by lia. reflexivity.
    + simpl. rewrite slice_to_nonneg by lia. rewrite length_take. lia.
    + simpl. replace (Nat.max 1 (size q_set)) with (size q_set) by lia.
      by apply ratio_bounds.
Qed.

Lemma keyword_overlap_spec_witness :
  extract_keywords "the of and" true = []
  /\ keyword_overlap "the of and" "the theory of everything" 10 = ([], 0%Q).
Proof.
  split; [reflexivity|].
  apply (proj1 (keyword_overlap_spec "the of and" "the theory of everything")).
  reflexivity.
Defined.

Example tokenize_ex :
  simple_tokenize "Quantum physics, the BASICS_1!" =
  ["quantum"; "physics"; "the"; "basics_1"].
Proof. reflexivity. Qed.

Example overlap_ex :
  keyword_overlap "quantum physics basics" "Physics of the quantum world" 10
  = (["physics"; "quantum"], (2 / 3)%Q).
Proof. vm_compute. reflexivity. Qed.

Example overlap_empty_query : keyword_overlap "the of and" "the of and" 10 = ([], 0%Q).
Proof. vm_compute. reflexivity. Qed.

Lemma ln_succ_pos (n : nat) : (1 <= n)%nat -> (0 < ln (INR (1 + n)))%R.
Proof.
  intros Hn. rewrite <- ln_1. apply ln_increasing; [lra|].
  replace 1%R with (INR 1) by done. apply lt_INR. lia.
Qed.

Lemma ln_succ_lt (n1 n2 : nat) :
  (n1 < n2)%nat -> (ln (INR (1 + n1)) < ln (INR (1 + n2)))%R.
Proof.
  intros Hn. apply ln_increasing.
  - apply lt_0_INR. lia.
  - apply lt_INR. lia.
Qed.

Lemma doc_length_norm_range (doc_text : string) :
  (0 < doc_length_norm doc_text < 1)%R.
Proof.
  unfold doc_length_norm.
  set (n := Nat.max 1 (length (simple_tokenize doc_text))).
  pose proof (ln_succ_pos n ltac:(lia)) as H1.
  split.
  - apply Rdiv_lt_0_compat; lra.
  - assert (/ (1 + ln (INR (1 + n))) < / 1)%R as H
      by (apply Rinv_lt_contravar; lra).
    rewrite Rinv_1 in H. unfold Rdiv. lra.
Qed.

Lemma doc_length_norm_clamped (doc_text : string) :
  (length (simple_tokenize doc_text) <= 1)%nat ->
  doc_length_norm doc_text = (1 / (1 + ln 2))%R.
Proof.
  intros Hc. unfold doc_length_norm.
  replace (Nat.max 1 (length (simple_tokenize doc_text))) with 1%nat by lia.
  replace (INR (1 + 1)) with 2%R by (simpl; lra). done.
Qed.

Lemma doc_length_norm_le (doc_text : string) :
  (doc_length_norm doc_text <= 1 / (1 + ln 2))%R.
Proof.
  destruct (decide (length (simple_tokenize doc_text) <= 1)%nat) as [Hc|Hc].
  { rewrite doc_length_norm_clamped by done. lra. }
  unfold doc_length_norm.
  set (n := Nat.max 1 (length (simple_tokenize doc_text))).
  assert (ln (INR (1 + 1)) < ln (INR (1 + n)))%R as Hlt
    by (apply ln_succ_lt; lia).
  replace (INR (1 + 1)) with 2%R in Hlt by (simpl; lra).
  pose proof (ln_succ_pos 1 ltac:(lia)) as H2.
  replace (INR (1 + 1)) with 2%R in H2 by (simpl; lra).
  unfold Rdiv. rewrite !Rmult_1_l. apply Rlt_le.
  apply Rinv_lt_contravar; [|lra].
  apply Rmult_lt_0_compat; lra.
Qed.

(** C2 (as amended): for every document text [doc_length_norm] lies
    strictly between 0 and 1 and is at most 1/(1 + ln 2), the value of
    the empty text, which is therefore its largest value; it is strictly
    decreasing in the unfiltered token count clamped to a minimum of 1;
    token counts 0 and 1 give the same value, 1/(1 + ln 2). *)
Theorem doc_length_norm_bounds (d1 d2 : string) :
  let count := fun t => length (simple_tokenize t) in
  (0 < doc_length_norm d1 < 1)%R
  /\ ((Nat.max 1 (count d1) < Nat.max 1 (count d2))%nat ->
      (doc_length_norm d2 < doc_length_norm d1)%R)
  /\ ((count d1 <= 1)%nat -> (count d2 <= 1)%nat ->
      doc_length_norm d1 = doc_length_norm d2)
  /\ (doc_length_norm d1 <= 1 / (1 + ln 2))%R
  /\ doc_length_norm "" = (1 / (1 + ln 2))%R
  /\ ((count d1 <= 1)%nat -> doc_length_norm d1 = (1 / (1 + ln 2))%R).
Proof.
  intros count. split; [|split; [|split; [|split; [|split]]]].
  - apply doc_length_norm_range.
  - intros Hlt. unfold doc_length_norm. fold (count d1). fold (count d2).
    pose proof (ln_succ_pos (Nat.max 1 (count d1)) ltac:(lia)) as H1.
    pose proof (ln_succ_pos (Nat.max 1 (count d2)) ltac:(lia)) as H2.
    apply ln_succ_lt in Hlt.
    unfold Rdiv. rewrite !Rmult_1_l.
    apply Rinv_lt_contravar; [|lra].
    apply Rmult_lt_0_compat; lra.
  - intros Hc1 Hc2. by rewrite !doc_length_norm_clamped.
  - apply doc_length_norm_le.
  - apply doc_length_norm_clamped. simpl. lia.
  - apply doc_length_norm_clamped.
Qed.

Lemma doc_length_norm_bounds_witness :
  (Nat.max 1 (length (simple_tokenize "a"))
   < Nat.max 1 (length (simple_tokenize "a b")))%nat
  /\ (doc_length_norm "a b" < doc_length_norm "a")%R.
Proof.
  split; [simpl; lia|].
  apply (proj1 (proj2 (doc_length_norm_bounds "a" "a b"))). simpl. lia.
Defined.

(** C2, counterexample: the empty text has no token and the text [a] has
    one, yet both are clamped to one token and get the same value, which
    is not 1. *)
Lemma doc_length_norm_not_strict :
  (length (simple_tokenize "") < length (simple_tokenize "a"))%nat
  /\ doc_length_norm "a" = doc_length_norm ""
  /\ doc_length_norm "" <> 1%R.
Proof.
  split; [simpl; lia|]. split; [reflexivity|].
  pose proof (doc_length_norm_range "") as H. lra.
Qed.

End ExplainerFacts.

(** * Embedding cache *)

Section CacheFacts.
Import CacheManager.


Lemma bulk_get_changed_fold (cm : t) (metas : list DocumentMeta) :
  bulk_get_changed cm metas = foldl (reconcile_step cm) ∅ metas.
Proof.
  unfold bulk_get_changed. generalize (∅ : gmap string (option CacheEntry)).
  induction metas as [|meta metas IH]; intros acc; [done|].
  simpl. rewrite IH. f_equal.
  unfold reconcile_step, reconciled.
  destruct (get cm (m_doc_id meta)) as [cached|]; [|done].
  by destruct (String.eqb _ _).
Qed.

Lemma reconcile_fold_other (cm : t) (metas : list DocumentMeta)
    (acc : gmap string (option CacheEntry)) (doc_id : string) :
  doc_id ∉ map m_doc_id metas ->
  foldl (reconcile_step cm) acc metas !! doc_id = acc !! doc_id.
Proof.
  revert acc. induction metas as [|meta metas IH]; intros acc Hnot; [done|].
  simpl in *. apply not_elem_of_cons in Hnot as [Hne Hnot].
  rewrite IH by done. unfold reconcile_step. by rewrite lookup_insert_ne.
Qed.

Lemma reconcile_fold_elem (cm : t) (metas : list DocumentMeta)
    (acc : gmap string (option CacheEntry)) (meta : DocumentMeta) :
  NoDup (map m_doc_id metas) -> meta ∈ metas ->
  foldl (reconcile_step cm) acc metas !! m_doc_id meta
  = Some (reconciled cm meta).
Proof.
  revert acc. induction metas as [|m metas IH]; intros acc Hnd Hin.
  - by apply elem_of_nil in Hin.
  - simpl in *. apply NoDup_cons in Hnd as [Hm Hnd].
    apply elem_of_cons in Hin as [->|Hin].
    + rewrite reconcile_fold_other by done.
      unfold reconcile_step. by rewrite lookup_insert_eq.
    + by apply IH.
Qed.

Lemma bulk_get_changed_elem (cm : t) (metas : list DocumentMeta)
    (meta : DocumentMeta) :
  NoDup (map m_doc_id metas) -> meta ∈ metas ->
  bulk_get_changed cm metas !! m_doc_id meta = Some (reconciled cm meta).
Proof. rewrite bulk_get_changed_fold. apply reconcile_fold_elem. Qed.

End CacheFacts.

(** * Embedding provider *)

Section EmbedderFacts.
Import Embedder.


Lemma sum_squares_nonneg (v : list R) : (0 <= sum_squares v)%R.
Proof.
  induction v as [|x v IH]; simpl; [lra|].
  pose proof (Rle_0_sqr x) as Hx. unfold Rsqr in Hx. lra.
Qed.

Lemma norm_zero_inv (v : list R) : norm v = 0%R -> Forall (fun x => x = 0%R) v.
Proof.
  intros Hn. apply sqrt_eq_0 in Hn; [|apply sum_squares_nonneg].
  induction v as [|x v IH]; [constructor|].
  simpl in Hn. pose proof (sum_squares_nonneg v) as Hv.
  pose proof (Rle_0_sqr x) as Hx. unfold Rsqr in Hx.
  unfold sum_squares in Hv.
  constructor.
  - assert (x * x = 0)%R as H0 by lra. by apply Rsqr_0_uniq.
  - apply IH. lra.
Qed.

Lemma divide_row_nonzero (v : list R) (n : R) :
  n <> 0%R -> divide_row v n = Some (map (fun x => x / n)%R v).
Proof.
  intros Hn. unfold divide_row.
  induction v as [|x v IH]; [done|].
  simpl. rewrite IH. unfold divide. by destruct (Req_dec_T n 0).
Qed.


Lemma divisor_nonzero (v : list R) : divisor v <> 0%R.
Proof. unfold divisor. destruct (Req_dec_T (norm v) 0); [lra|done]. Qed.

Lemma _normalize_rows (vectors : list (list R)) :
  _normalize vectors
  = Some (map (fun v => map (fun x => x / divisor v)%R v) vectors).
Proof.
  unfold _normalize. induction vectors as [|v vectors IH]; [done|].
  simpl in *. rewrite IH.
  fold (divisor v). rewrite (divide_row_nonzero v (divisor v)); [done|].
  apply divisor_nonzero.
Qed.

Lemma map_div_1 (v : list R) : map (fun x => x / 1)%R v = v.
Proof.
  induction v as [|x v IH]; [done|]. simpl. rewrite IH. f_equal. lra.
Qed.

(** C10: the normalisation never divides by zero.  [_normalize] is
    defined on every matrix, keeps the number of rows and returns a row of
    zero norm unchanged (its norm is replaced by 1 before the division);
    [embed_texts] and [embed_query] are defined on every input; an input
    whose raw embedding has zero norm has the zero vector as raw embedding
    and [embed_query] returns it unchanged. *)
Theorem normalize_total (encode : string -> list R) :
  (forall vectors, exists out,
      _normalize vectors = Some out
      /\ length out = length vectors
      /\ forall i v, vectors !! i = Some v -> norm v = 0%R -> out !! i = Some v)
  /\ (forall texts, exists out,
         embed_texts encode texts = Some out /\ length out = length texts)
  /\ (forall query, exists out, embed_query encode query = Some out)
  /\ (forall query, norm (encode query) = 0%R ->
         embed_query encode query = Some (encode query)
         /\ Forall (fun x => x = 0%R) (encode query)).
Proof.
  split_and!.
  - intros vectors. eexists. split; [apply _normalize_rows|].
    split; [by rewrite length_map|].
    intros i v Hv Hn. rewrite list_lookup_fmap, Hv. simpl.
    unfold divisor. destruct (Req_dec_T (norm v) 0); [|done].
    by rewrite map_div_1.
  - intros texts. eexists. unfold embed_texts.
    split; [apply _normalize_rows|]. by rewrite !length_map.
  - intros query. unfold embed_query.
    destruct (Req_dec_T (norm (encode query)) 0) as [H|H]; [by eexists|].
    rewrite divide_row_nonzero by done. by eexists.
  - intros query Hn. split; [|by apply norm_zero_inv].
    unfold embed_query. by destruct (Req_dec_T (norm (encode query)) 0).
Qed.

Lemma normalize_total_witness :
  norm [0%R; 0%R] = 0%R
  /\ embed_query (fun _ => [0%R; 0%R]) "quantum" = Some [0%R; 0%R].
Proof.
  assert (norm [0%R; 0%R] = 0%R) as Hn.
  { unfold norm. simpl.
    replace (0 * 0 + (0 * 0 + 0))%R with 0%R by lra. apply sqrt_0. }
  split; [exact Hn|].
  apply (proj2 (proj2 (proj2 (normalize_total (fun _ => [0%R; 0%R]))))
           "quantum" Hn).
Defined.

End EmbedderFacts.

(** * Index builder *)

Section BuildFacts.
Import SearchEngine.

Lemma read_texts_length fs (all_docs : list DocumentMeta) (texts : list string) :
  read_texts fs all_docs = Ok texts -> length texts = length all_docs.
Proof.
  revert texts. induction all_docs as [|meta rest IH]; intros texts H.
  - by inversion H.
  - simpl in H. destruct (fs (m_path meta)); [|done].
    destruct (read_texts fs rest) as [ts|]; [|done].
    inversion H. simpl. f_equal. by apply IH.
Qed.

Lemma check_cache_snoc cm texts (all_docs : list DocumentMeta) (meta : DocumentMeta) :
  check_cache cm (all_docs ++ [meta]) texts
  = check_cache_step cm texts (check_cache cm all_docs texts)
      (length all_docs, meta).
Proof.
  unfold check_cache, enumerate. rewrite imap_app, foldl_app. simpl.
  by rewrite Nat.add_0_r.
Qed.

Lemma check_cache_spec cm (all_docs : list DocumentMeta) (texts : list string) :
  forall embeddings to_compute compute_indices,
  check_cache cm all_docs texts = (embeddings, to_compute, compute_indices) ->
  embeddings
  = (fun m => c_embedding <$> CacheManager.get cm (m_doc_id m)) <$> all_docs
  /\ to_compute = (fun i => texts !!! i) <$> compute_indices
  /\ (forall i : nat, i ∈ compute_indices <->
        exists m, all_docs !! i = Some m
                  /\ CacheManager.get cm (m_doc_id m) = None)
  /\ NoDup compute_indices.
Proof.
  induction all_docs as [|meta all_docs IH] using rev_ind;
    intros embs tc ci H.
  - inversion H. split_and!; [done|done| |constructor].
    intros i. split; [by intros ?%elem_of_nil|]. by intros (m & ? & _).
  - rewrite check_cache_snoc in H.
    destruct (check_cache cm all_docs texts) as [[embs0 tc0] ci0].
    destruct (IH _ _ _ eq_refl) as (He & Ht & Hi & Hnd).
    unfold check_cache_step in H.
    destruct (CacheManager.get cm (m_doc_id meta)) as [cached|] eqn:Hget;
      inversion H; subst embs tc ci; clear H.
    + split_and!; [|done| |done].
      * rewrite fmap_app. simpl. by rewrite Hget, <- He.
      * intros i. rewrite Hi. split; intros (m & Hm & Hn); exists m.
        -- split; [|done]. by apply lookup_app_l_Some.
        -- split; [|done]. apply lookup_app_Some in Hm as [?|[_ Hm]]; [done|].
           apply list_lookup_singleton_Some in Hm as [_ <-]. congruence.
    + split_and!.
      * rewrite fmap_app. simpl. by rewrite Hget, <- He.
      * rewrite fmap_app. simpl. by rewrite <- Ht.
      * intros i. rewrite elem_of_app, Hi, list_elem_of_singleton.
        split.
        -- intros [(m & Hm & Hn)| ->].
           ++ exists m. split; [|done]. by apply lookup_app_l_Some.
           ++ exists meta. split; [|done]. by apply list_lookup_middle.
        -- intros (m & Hm & Hn).
           apply lookup_app_Some in Hm as [?|[Hge Hm]]; [left; by exists m|].
           apply list_lookup_singleton_Some in Hm as [Hi' <-]. right. lia.
      * apply NoDup_app. split_and!; [done| |apply NoDup_singleton].
        intros i Hin ->%list_elem_of_singleton.
        apply Hi in Hin as (m & Hm & _). apply lookup_lt_Some in Hm. lia.
Qed.

Lemma get_set cm doc_id emb h now doc_id' :
  CacheManager.get (CacheManager.set cm doc_id emb h now) doc_id'
  = if decide (doc_id = doc_id')
    then Some {| c_doc_id := doc_id; c_embedding := emb; c_hash := h;
                 c_updated_at := now |}
    else CacheManager.get cm doc_id'.
Proof. unfold CacheManager.get, CacheManager.set. simpl. apply lookup_insert. Qed.

(** The second loop of [build_index], over pairs whose positions are
    distinct and in range. *)
Lemma store_loop_spec (all_docs : list DocumentMeta) (clock : nat -> Z)
    (l : list (nat * vec)) :
  forall cm embeddings k cm' embeddings' k',
  foldl (store_step all_docs clock) (cm, embeddings, k) l
  = (cm', embeddings', k') ->
  NoDup l.*1 ->
  (forall i, i ∈ l.*1 -> (i < length embeddings)%nat /\ is_Some (all_docs !! i)) ->
  length embeddings' = length embeddings
  /\ (forall i, i ∉ l.*1 -> embeddings' !! i = embeddings !! i)
  /\ (forall i e, (i, e) ∈ l -> embeddings' !! i = Some (Some e))
  /\ (forall doc_id,
        (forall i m, i ∈ l.*1 -> all_docs !! i = Some m -> m_doc_id m <> doc_id) ->
        CacheManager.get cm' doc_id = CacheManager.get cm doc_id)
  /\ (NoDup (m_doc_id <$> all_docs) ->
      forall i e m, (i, e) ∈ l -> all_docs !! i = Some m ->
        exists now, CacheManager.get cm' (m_doc_id m)
                    = Some {| c_doc_id := m_doc_id m; c_embedding := e;
                              c_hash := m_hash m; c_updated_at := now |}).
Proof.
  induction l as [|[i e] l IH]; intros cm embs k cm' embs' k' H Hnd Hin.
  - inversion H; subst. split_and!; try done.
    + intros i e []%elem_of_nil.
    + intros _ i e m []%elem_of_nil.
  - simpl in *. apply NoDup_cons in Hnd as [Hi Hnd].
    destruct (Hin i ltac:(by left)) as [Hlt [m Hm]].
    rewrite Hm in H.
    apply IH in H as (Hlen & Hother & Hset & Hcache & Hentry); [|done|].
    2:{ intros j Hj. rewrite length_insert. apply Hin. by right. }
    rewrite length_insert in Hlen.
    split_and!.
    + done.
    + intros j [Hne Hj]%not_elem_of_cons.
      rewrite Hother by done. by rewrite list_lookup_insert_ne.
    + intros j e' [[= -> ->]|Hj]%elem_of_cons.
      * rewrite Hother by done. by rewrite list_lookup_insert_eq.
      * by apply Hset.
    + intros doc_id Hids. rewrite Hcache.
      * rewrite get_set. rewrite decide_False; [done|].
        apply (Hids i m); [by left|done].
      * intros j m' Hj. apply Hids. by right.
    + intros Hndid j e' m' [[= -> ->]|Hj]%elem_of_cons Hm'.
      * assert (m' = m) as -> by congruence.
        exists (clock k). rewrite Hcache.
        -- rewrite get_set. by rewrite decide_True.
        -- intros j m' Hj Hm'' Heq.
           assert (j = i) as ->; [|done].
           eapply (NoDup_lookup (m_doc_id <$> all_docs)); [done| |].
           ++ by rewrite list_lookup_fmap, Hm''.
           ++ rewrite list_lookup_fmap, Hm. simpl. by rewrite Heq.
      * by apply (Hentry Hndid j e' m').
Qed.

Lemma mapM_id_Some {A} (l : list (option A)) (k : list A) :
  mapM (fun e => e) l = Some k -> l = Some <$> k.
Proof.
  intros HM%mapM_Some.
  induction HM as [|x y l k Hxy _ IH]; [done|]. simpl. by rewrite Hxy, IH.
Qed.

Lemma vstack_Ok (embeddings : list (option vec)) (matrix : list vec) :
  vstack embeddings = Ok matrix ->
  embeddings = Some <$> matrix /\ matrix <> [].
Proof.
  unfold vstack. destruct (mapM _ embeddings) as [[|r rs]|] eqn:HM; try done.
  case_match; [|done]. intros [= <-]. split; [|done].
  by apply mapM_id_Some.
Qed.

Lemma fst_zip_take {A B} (l : list A) (k : list B) :
  (zip l k).*1 = take (length k) l.
Proof.
  revert k. induction l as [|x l IH]; intros [|y k]; simpl; try done.
  by rewrite IH.
Qed.

(** A completed build, taken apart. *)
Lemma build_index_inv eng fs clock b :
  build_index eng fs clock = Ok b ->
  exists texts embeddings k,
    read_texts fs (metadata eng).*2 = Ok texts
    /\ check_cache (cache eng) (metadata eng).*2 texts
       = (embeddings, b_to_compute b, b_compute_indices b)
    /\ foldl (store_step (metadata eng).*2 clock) (cache eng, embeddings, 0%nat)
         (zip (b_compute_indices b)
              (embed_texts (embedder eng) (b_to_compute b)))
       = (b_cache b, Some <$> rows (b_index b), k)
    /\ vstack (Some <$> rows (b_index b)) = Ok (rows (b_index b))
    /\ d (b_index b)
       = match rows (b_index b) with r :: _ => length r | [] => 0%nat end
    /\ b_id_map b
       = list_to_map (imap (fun i doc_id => (Z.of_nat i, doc_id))
                           (m_doc_id <$> (metadata eng).*2))
    /\ b_store b = {| index_file := Some (b_index b);
                      idmap_file := Some (dump_keys (b_id_map b)) |}.
Proof.
  unfold build_index. intros H.
  destruct (read_texts fs _) as [texts|] eqn:Htexts; [|done]. simpl in H.
  destruct (check_cache _ _ texts) as [[embs tc] ci] eqn:Hcc.
  pose proof (check_cache_spec _ _ _ _ _ _ Hcc) as (_ & Htc & _ & _).
  set (st := foldl (store_step (metadata eng).*2 clock)
               (cache eng, embs, 0%nat)
               (zip ci (embed_texts (embedder eng) tc))) in *.
  assert (match tc with
          | [] => (cache eng, embs, 0%nat)
          | _ => st
          end = st) as Hst.
  { destruct tc as [|t tc]; [|done].
    destruct ci as [|i ci]; [done|]. done. }
  rewrite Hst in H. clear Hst.
  destruct st as [[cm embs'] k] eqn:Hfold.
  destruct (vstack embs') as [matrix|] eqn:Hv; [|done]. simpl in H.
  pose proof (vstack_Ok _ _ Hv) as [-> _].
  inversion H; subst b; clear H. simpl.
  exists texts, embs, k. by split_and!.
Qed.

(** The id map written by [build_index]: position [i] maps to the
    i-th doc_id, and there is no other key. *)
Lemma id_map_lookup_from (doc_ids : list string) (n : nat) (key : Z) :
  (list_to_map (imap (fun i doc_id => (Z.of_nat (n + i), doc_id)) doc_ids)
     : gmap Z string) !! key
  = if decide (Z.of_nat n <= key)
    then doc_ids !! (Z.to_nat key - n)%nat else None.
Proof.
  revert n. induction doc_ids as [|x doc_ids IH]; intros n.
  - simpl. rewrite lookup_empty. by case_decide.
  - rewrite imap_cons. simpl.
    rewrite (imap_ext _ (fun i doc_id => (Z.of_nat (S n + i), doc_id)));
      [|intros i y _; simpl; f_equal; lia].
    rewrite lookup_insert. rewrite IH.
    repeat case_decide; try lia.
    + replace (Z.to_nat key - n)%nat with 0%nat by lia. done.
    + replace (Z.to_nat key - n)%nat with (S (Z.to_nat key - S n)) by lia. done.
    + done.
Qed.

Lemma id_map_lookup (doc_ids : list string) (i : nat) :
  (list_to_map (imap (fun i doc_id => (Z.of_nat i, doc_id)) doc_ids)
     : gmap Z string) !! Z.of_nat i = doc_ids !! i.
Proof.
  rewrite (id_map_lookup_from doc_ids 0). rewrite decide_True by lia.
  f_equal. lia.
Qed.

Lemma id_map_size (doc_ids : list string) :
  size (list_to_map (imap (fun i doc_id => (Z.of_nat i, doc_id)) doc_ids)
          : gmap Z string) = length doc_ids.
Proof.
  rewrite map_size_list_to_map; [by rewrite length_imap|].
  rewrite fmap_imap.
  rewrite (imap_ext _ (fun i _ => Z.of_nat i)); [|done].
  rewrite imap_seq_0. apply NoDup_fmap_2; [apply _|apply NoDup_seq].
Qed.

Lemma dump_keys_lookup (m : gmap Z string) (key : Z) :
  dump_keys m !! pretty key = m !! key.
Proof. unfold dump_keys. apply (lookup_kmap (pretty : Z -> string)). Qed.

(** What a completed build says about every position. *)
Lemma build_index_facts eng fs clock b :
  build_index eng fs clock = Ok b ->
  let all_docs := (metadata eng).*2 in
  length (rows (b_index b)) = length all_docs
  /\ (forall i : nat, i ∈ b_compute_indices b <->
        exists m, all_docs !! i = Some m
                  /\ CacheManager.get (cache eng) (m_doc_id m) = None)
  /\ (exists texts, read_texts fs all_docs = Ok texts
        /\ b_to_compute b = (fun i => texts !!! i) <$> b_compute_indices b)
  /\ (forall i m e, all_docs !! i = Some m ->
        CacheManager.get (cache eng) (m_doc_id m) = Some e ->
        rows (b_index b) !! i = Some (c_embedding e)
        /\ CacheManager.get (b_cache b) (m_doc_id m) = Some e)
  /\ (NoDup (m_doc_id <$> all_docs) ->
      forall i m, all_docs !! i = Some m ->
        CacheManager.get (cache eng) (m_doc_id m) = None ->
        exists j emb now,
          b_compute_indices b !! j = Some i
          /\ embed_texts (embedder eng) (b_to_compute b) !! j = Some emb
          /\ rows (b_index b) !! i = Some emb
          /\ CacheManager.get (b_cache b) (m_doc_id m)
             = Some {| c_doc_id := m_doc_id m; c_embedding := emb;
                       c_hash := m_hash m; c_updated_at := now |}).
Proof.
  intros Hb all_docs.
  destruct (build_index_inv _ _ _ _ Hb)
    as (texts & embs & k & Htexts & Hcc & Hfold & _).
  fold all_docs in Htexts, Hcc, Hfold.
  destruct (check_cache_spec _ _ _ _ _ _ Hcc) as (Hembs & Htc & Hci & Hnd).
  set (l := zip (b_compute_indices b)
                (embed_texts (embedder eng) (b_to_compute b))) in *.
  assert (forall i, i ∈ l.*1 -> i ∈ b_compute_indices b) as Hl.
  { intros i. unfold l. rewrite fst_zip_take. apply subseteq_take. }
  assert (length embs = length all_docs) as Hlen0
    by (by rewrite Hembs, length_fmap).
  apply store_loop_spec in Hfold
    as (Hlen & Hother & Hset & Hcache & Hentry).
  2:{ unfold l. rewrite fst_zip_take.
      eapply sublist_NoDup; [exact Hnd|apply sublist_take]. }
  2:{ intros i Hi%Hl. apply Hci in Hi as (m & Hm & _).
      split; [|by eexists]. rewrite Hlen0. by eapply lookup_lt_Some. }
  rewrite length_fmap in Hlen.
  split_and!.
  - congruence.
  - done.
  - by exists texts.
  - intros i m e Hm Hget.
    assert (i ∉ l.*1) as Hnot.
    { intros Hi%Hl. apply Hci in Hi as (m' & Hm' & Hn). congruence. }
    split.
    + specialize (Hother i Hnot).
      rewrite Hembs, !list_lookup_fmap, Hm in Hother. simpl in Hother.
      rewrite Hget in Hother. simpl in Hother.
      destruct (rows (b_index b) !! i); by inversion Hother.
    + rewrite Hcache; [done|].
      intros j m' Hj%Hl Hm' Heq.
      apply Hci in Hj as (m'' & Hm'' & Hn). congruence.
  - intros Hndid i m Hm Hget.
    assert (exists emb, (i, emb) ∈ l) as [emb Hemb].
    { destruct (decide (i ∈ l.*1)) as [Hi|Hi].
      - apply list_elem_of_fmap in Hi as ([i' emb] & -> & Hin). by exists emb.
      - specialize (Hother i Hi).
        rewrite Hembs, !list_lookup_fmap, Hm in Hother. simpl in Hother.
        rewrite Hget in Hother. simpl in Hother.
        destruct (rows (b_index b) !! i) eqn:Hr; [by inversion Hother|].
        apply lookup_ge_None in Hr. apply lookup_lt_Some in Hm. lia. }
    destruct (Hentry Hndid i emb m Hemb Hm) as [now Hnow].
    pose proof (Hset i emb Hemb) as Hrow.
    apply list_elem_of_lookup in Hemb as [j Hj].
    apply lookup_zip_Some in Hj as [Hj1 Hj2].
    exists j, emb, now. split_and!; try done.
    rewrite list_lookup_fmap in Hrow.
    destruct (rows (b_index b) !! i); by inversion Hrow.
Qed.

Lemma build_index_positions eng fs clock b :
  NoDup (m_doc_id <$> (metadata eng).*2) ->
  build_index eng fs clock = Ok b ->
  let all_docs := (metadata eng).*2 in
  let N := length all_docs in
  length (rows (b_index b)) = N
  /\ size (b_id_map b) = N
  /\ b_store b = {| index_file := Some (b_index b);
                    idmap_file := Some (dump_keys (b_id_map b)) |}
  /\ forall i : nat, (i < N)%nat ->
       exists meta v entry,
         all_docs !! i = Some meta
         /\ b_id_map b !! Z.of_nat i = Some (m_doc_id meta)
         /\ dump_keys (b_id_map b) !! pretty (Z.of_nat i) = Some (m_doc_id meta)
         /\ rows (b_index b) !! i = Some v
         /\ CacheManager.get (b_cache b) (m_doc_id meta) = Some entry
         /\ c_embedding entry = v.
Proof.
  intros Hnd Hb all_docs N.
  destruct (build_index_inv _ _ _ _ Hb)
    as (_ & _ & _ & _ & _ & _ & _ & _ & Hidm & Hstore).
  destruct (build_index_facts _ _ _ _ Hb) as (Hlen & _ & _ & Hhit & Hmiss).
  fold all_docs in Hidm, Hlen, Hhit, Hmiss.
  assert (forall i meta, all_docs !! i = Some meta ->
            b_id_map b !! Z.of_nat i = Some (m_doc_id meta)) as Hkey.
  { intros i meta Hm. rewrite Hidm, id_map_lookup, list_lookup_fmap, Hm. done. }
  split_and!; [done| |done|].
  - rewrite Hidm, id_map_size, length_fmap. done.
  - intros i Hi. destruct (lookup_lt_is_Some_2 all_docs i Hi) as [meta Hm].
    destruct (CacheManager.get (cache eng) (m_doc_id meta)) as [e|] eqn:Hget.
    + destruct (Hhit i meta e Hm Hget) as [Hrow Hc].
      exists meta, (c_embedding e), e.
      rewrite dump_keys_lookup, (Hkey i meta Hm). done.
    + destruct (Hmiss Hnd i meta Hm Hget) as (j & emb & now & _ & _ & Hrow & Hc).
      eexists meta, emb, _.
      rewrite dump_keys_lookup, (Hkey i meta Hm). done.
Qed.

End BuildFacts.

(** * Cache hits and misses in the build *)

Section CacheClaims.
Import SearchEngine.

Lemma reconciled_empty (cm : CacheManager.t) (meta : DocumentMeta) :
  CacheManager._data cm = ∅ -> reconciled cm meta = None.
Proof.
  intros H. unfold reconciled, CacheManager.get. by rewrite H, lookup_empty.
Qed.

Lemma reconciled_hit (cm : CacheManager.t) (meta : DocumentMeta) (entry : CacheEntry) :
  CacheManager.get cm (m_doc_id meta) = Some entry ->
  c_hash entry = m_hash meta ->
  reconciled cm meta = Some entry.
Proof.
  intros Hget Hh. unfold reconciled. rewrite Hget, Hh.
  by rewrite String.eqb_refl.
Qed.

Lemma reconciled_miss (cm : CacheManager.t) (meta : DocumentMeta) :
  (forall entry, CacheManager.get cm (m_doc_id meta) = Some entry ->
                 c_hash entry <> m_hash meta) ->
  reconciled cm meta = None.
Proof.
  intros H. unfold reconciled.
  destruct (CacheManager.get cm (m_doc_id meta)) as [entry|]; [|done].
  destruct (String.eqb_spec (c_hash entry) (m_hash meta)) as [Heq|]; [|done].
  by destruct (H entry eq_refl).
Qed.

(** C8: a cache file that is missing, or whose text is not JSON, loads as
    the empty cache, over which every reconcile signals recompute; but a
    cache file whose bytes are not UTF-8 makes the load raise. *)
Theorem load_cache_cases :
  CacheManager.init (CacheManager.Undecodable [255])
  = Raise UnicodeDecodeError
  /\ CacheManager.init CacheManager.Missing
     = Ok {| CacheManager.file := CacheManager.Missing;
             CacheManager._data := ∅ |}
  /\ (forall text,
        CacheManager.init (CacheManager.Unparseable text)
        = Ok {| CacheManager.file := CacheManager.Unparseable text;
                CacheManager._data := ∅ |})
  /\ (forall f cm metas meta,
        f = CacheManager.Missing \/ (exists text, f = CacheManager.Unparseable text) ->
        CacheManager.init f = Ok cm ->
        NoDup (m_doc_id <$> metas) -> meta ∈ metas ->
        CacheManager.bulk_get_changed cm metas !! m_doc_id meta = Some None).
Proof.
  split_and!; try done.
  intros f cm metas meta Hf Hinit Hnd Hin.
  rewrite bulk_get_changed_elem by done. f_equal.
  apply reconciled_empty.
  destruct Hf as [->|[text ->]]; by inversion Hinit.
Qed.

Lemma rebuild_computes_nothing eng fs clock clock' b :
  NoDup (m_doc_id <$> (metadata eng).*2) ->
  build_index eng fs clock = Ok b ->
  build_index (with_cache eng (b_cache b)) fs clock'
  = Ok {| b_cache := b_cache b; b_index := b_index b;
          b_id_map := b_id_map b; b_store := b_store b;
          b_compute_indices := []; b_to_compute := [] |}.
Proof.
  intros Hnd Hb.
  destruct (build_index_inv _ _ _ _ Hb)
    as (texts & embs & k & Htexts & _ & _ & Hv & Hd & Hidm & Hstore).
  destruct (build_index_facts _ _ _ _ Hb) as (Hlen & _ & _ & Hhit & Hmiss).
  specialize (Hmiss Hnd).
  assert (forall i m, (metadata eng).*2 !! i = Some m ->
            exists e, CacheManager.get (b_cache b) (m_doc_id m) = Some e
                      /\ rows (b_index b) !! i = Some (c_embedding e)) as Hall.
  { intros i m Hm.
    destruct (CacheManager.get (cache eng) (m_doc_id m)) as [e|] eqn:Hget.
    - destruct (Hhit i m e Hm Hget) as [? ?]. by exists e.
    - destruct (Hmiss i m Hm Hget) as (j & emb & now & _ & _ & ? & ?).
      eexists. split; [done|]. done. }
  unfold build_index. simpl. rewrite Htexts. simpl.
  destruct (check_cache (b_cache b) (metadata eng).*2 texts)
    as [[embs2 tc2] ci2] eqn:Hcc2.
  destruct (check_cache_spec _ _ _ _ _ _ Hcc2) as (Hembs2 & Htc2 & Hci2 & _).
  assert (ci2 = []) as ->.
  { apply elem_of_nil_inv. intros i Hi.
    apply Hci2 in Hi as (m & Hm & Hn).
    destruct (Hall i m Hm) as (e & He & _). congruence. }
  simpl in Htc2. subst tc2.
  assert (embs2 = Some <$> rows (b_index b)) as ->.
  { subst embs2. clear Hidm Hnd Htexts Hcc2.
    set (docs := (metadata eng).*2) in *. clearbody docs. apply list_eq. intros i. rewrite !list_lookup_fmap.
    destruct (docs !! i) as [m|] eqn:Hm; simpl.
    - destruct (Hall i m Hm) as (e & He & Hrow). by rewrite He, Hrow.
    - apply lookup_ge_None in Hm. rewrite <- Hlen in Hm.
      apply lookup_ge_None in Hm. by rewrite Hm. }
  rewrite Hv. simpl. f_equal.
  clear -Hd Hidm Hstore.
  destruct b as [cm [dim matrix] idm store ci tc]; simpl in *.
  by subst.
Qed.

(** C4: a document whose hash equals the hash stored in its cache entry
    is a cache hit.  [bulk_get_changed] returns the stored entry itself; a
    completed [build_index] does not send the document to the provider
    (its position is not among [compute_indices], and the texts sent are
    exactly those at [compute_indices]), places the stored embedding at
    the document's position and keeps the entry; and building again after
    a completed build sends nothing to the provider and leaves cache and
    index as they were. *)
Theorem cache_hit_reused :
  (forall cm metas meta entry,
      NoDup (m_doc_id <$> metas) -> meta ∈ metas ->
      CacheManager.get cm (m_doc_id meta) = Some entry ->
      c_hash entry = m_hash meta ->
      CacheManager.bulk_get_changed cm metas !! m_doc_id meta
      = Some (Some entry))
  /\ (forall eng fs clock b i meta entry,
        build_index eng fs clock = Ok b ->
        (metadata eng).*2 !! i = Some meta ->
        CacheManager.get (cache eng) (m_doc_id meta) = Some entry ->
        c_hash entry = m_hash meta ->
        (i ∉ b_compute_indices b)
        /\ (exists texts, read_texts fs (metadata eng).*2 = Ok texts
              /\ b_to_compute b = (fun j => texts !!! j) <$> b_compute_indices b)
        /\ rows (b_index b) !! i = Some (c_embedding entry)
        /\ CacheManager.get (b_cache b) (m_doc_id meta) = Some entry)
  /\ (forall eng fs clock clock' b,
        NoDup (m_doc_id <$> (metadata eng).*2) ->
        build_index eng fs clock = Ok b ->
        exists b',
          build_index (with_cache eng (b_cache b)) fs clock' = Ok b'
          /\ b_to_compute b' = [] /\ b_compute_indices b' = []
          /\ b_cache b' = b_cache b /\ b_index b' = b_index b).
Proof.
  split_and!.
  - intros cm metas meta entry Hnd Hin Hget Hh.
    rewrite bulk_get_changed_elem by done. f_equal.
    by apply reconciled_hit.
  - intros eng fs clock b i meta entry Hb Hm Hget _.
    destruct (build_index_facts _ _ _ _ Hb) as (_ & Hci & Htexts & Hhit & _).
    destruct (Hhit i meta entry Hm Hget) as [Hrow Hc].
    split_and!; try done.
    intros (m' & Hm' & Hn)%Hci. congruence.
  - intros eng fs clock clock' b Hnd Hb.
    eexists. split; [by apply (rebuild_computes_nothing _ _ clock)|]. done.
Qed.

Lemma cache_hit_reused_witness :
  CacheManager.get Demo.warm_cache "doc_002" = Some Demo.warm_entry
  /\ c_hash Demo.warm_entry = m_hash Demo.doc_002
  /\ CacheManager.bulk_get_changed Demo.warm_cache [Demo.doc_001; Demo.doc_002]
       !! "doc_002" = Some (Some Demo.warm_entry).
Proof.
  split; [reflexivity|]. split; [reflexivity|].
  apply (proj1 cache_hit_reused Demo.warm_cache [Demo.doc_001; Demo.doc_002]
               Demo.doc_002 Demo.warm_entry).
  - apply NoDup_cons. split; [|apply NoDup_singleton].
    intros H%list_elem_of_singleton. discriminate.
  - apply elem_of_cons. right. apply elem_of_cons. by left.
  - reflexivity.
  - reflexivity.
Defined.

(** C1: the build looks entries up by doc_id and never compares hashes.
    In the small corpus [doc_001] has the hash 9f2c while its cache entry
    was stored under the hash 0d7e: [bulk_get_changed] answers absent for
    it, yet the completed build sends only [doc_002] to the provider, puts
    the stored vector of the old content at position 0 and leaves the
    entry, old hash included, in the cache; the provider would have
    returned another vector for the current text. *)
Theorem build_index_reuses_stale_entry :
  CacheManager.bulk_get_changed Demo.stale_cache (Demo.corpus).*2 !! "doc_001"
  = Some None
  /\ exists b,
       build_index (Demo.engine Demo.stale_cache) Demo.fs Demo.clock = Ok b
       /\ b_compute_indices b = [1%nat]
       /\ b_to_compute b = ["cooking with rice"]
       /\ rows (b_index b) !! 0%nat = Some (c_embedding Demo.stale_entry)
       /\ CacheManager.get (b_cache b) "doc_001" = Some Demo.stale_entry
       /\ c_hash Demo.stale_entry <> m_hash Demo.doc_001
       /\ embed_texts Demo.provider ["quantum physics of the atom"]
          <> [c_embedding Demo.stale_entry].
Proof.
  split; [by vm_compute|].
  eexists. split; [vm_compute; reflexivity|].
  split_and!; try (by vm_compute).
Qed.

End CacheClaims.

(** * Retriever *)

Section SearchFacts.
Import SearchEngine.

Lemma faiss_search_in_range (ix : FaissIndex) (qvec : vec) (k : Z) :
  length qvec = d ix ->
  1 <= k <= Z.of_nat (length (rows ix)) ->
  exists hits,
    faiss_search ix qvec k = Ok hits
    /\ length hits = Z.to_nat k
    /\ Forall (fun hit => exists i : nat,
                 hit.2 = Z.of_nat i /\ (i < length (rows ix))%nat) hits.
Proof.
  intros Hd Hk. unfold faiss_search.
  rewrite Hd, Nat.eqb_refl. simpl.
  destruct (Z.leb_spec k 0) as [?|_]; [lia|].
  set (scored := imap (fun i v => (dot qvec v, Z.of_nat i)) (rows ix)).
  set (ranked := sorted _ scored).
  assert (length ranked = length (rows ix)) as Hlen.
  { unfold ranked. rewrite sorted_length. unfold scored. by rewrite length_imap. }
  assert (length (take (Z.to_nat k) ranked) = Z.to_nat k) as Htake.
  { rewrite length_take. lia. }
  eexists. split; [done|].
  rewrite Htake, Nat.sub_diag. simpl. rewrite app_nil_r.
  split; [done|].
  apply Forall_forall. intros hit Hin.
  apply subseteq_take in Hin.
  unfold ranked in Hin. rewrite sorted_perm in Hin.
  apply elem_of_lookup_imap in Hin as (i & v & -> & Hv).
  exists i. split; [done|]. by eapply lookup_lt_Some.
Qed.

Lemma resolve_ok (idm : gmap string string) (md : Metadata)
    (hits : list (Q * Z)) :
  Forall (fun hit => exists doc_id meta,
            idm !! pretty hit.2 = Some doc_id
            /\ dict_get md doc_id = Some meta) hits ->
  exists results,
    resolve idm md hits = Ok results
    /\ length results = length hits
    /\ Forall2 (fun hit r =>
                  r_score r = hit.1
                  /\ idm !! pretty hit.2 = Some (r_doc_id r)
                  /\ exists meta, dict_get md (r_doc_id r) = Some meta
                                  /\ r_path r = m_path meta) hits results.
Proof.
  induction 1 as [|[score idx] hits (doc_id & meta & Hid & Hmeta) _ IH].
  - by exists [].
  - destruct IH as (results & Hres & Hlen & Hall).
    simpl in *. rewrite Hid. simpl. rewrite Hmeta. simpl. rewrite Hres. simpl.
    eexists. split; [done|]. split; [simpl; by rewrite Hlen|].
    constructor; [|done]. simpl. split_and!; try done. by exists meta.
Qed.

Lemma dict_get_elem (md : Metadata) (m : DocumentMeta) :
  Forall (fun kv => kv.1 = m_doc_id kv.2) md ->
  NoDup (m_doc_id <$> md.*2) ->
  m ∈ md.*2 -> dict_get md (m_doc_id m) = Some m.
Proof.
  induction 1 as [|[key v] md Hkey _ IH]; intros Hnd Hin.
  - by apply elem_of_nil in Hin.
  - simpl in *. subst key. apply NoDup_cons in Hnd as [Hv Hnd].
    apply elem_of_cons in Hin as [->|Hin].
    + by rewrite String.eqb_refl.
    + destruct (String.eqb_spec (m_doc_id v) (m_doc_id m)) as [Heq|_].
      * destruct Hv. rewrite Heq. by apply list_elem_of_fmap_2.
      * by apply IH.
Qed.

(** An engine that loads what a completed build wrote satisfies the
    alignment [search] relies on. *)
Lemma built_engine_aligned eng fs clock b eng' :
  Forall (fun kv => kv.1 = m_doc_id kv.2) (metadata eng) ->
  NoDup (m_doc_id <$> (metadata eng).*2) ->
  build_index eng fs clock = Ok b ->
  load_index eng (b_store b) = Ok eng' ->
  exists ix idm,
    index eng' = Some ix /\ id_map eng' = Some idm
    /\ forall i : nat, (i < length (rows ix))%nat ->
         exists doc_id meta,
           idm !! pretty (Z.of_nat i) = Some doc_id
           /\ dict_get (metadata eng') doc_id = Some meta.
Proof.
  intros Hwf Hnd Hb Hload.
  destruct (build_index_positions _ _ _ _ Hnd Hb) as (Hlen & _ & Hstore & Hpos).
  unfold load_index in Hload. rewrite Hstore in Hload. simpl in Hload.
  inversion Hload; subst eng'; clear Hload. simpl.
  eexists _, _. split; [done|]. split; [done|].
  intros i Hi. rewrite Hlen in Hi.
  destruct (Hpos i Hi) as (meta & v & entry & Hm & _ & Hkey & _).
  exists (m_doc_id meta), meta. split; [done|].
  apply dict_get_elem; try done. by eapply list_elem_of_lookup_2.
Qed.

Example loaded_engine_built :
  exists b,
    build_index (Demo.engine Demo.empty_cache) Demo.fs Demo.clock = Ok b
    /\ load_index (Demo.engine Demo.empty_cache) (b_store b)
       = Ok Demo.loaded_engine
    /\ rows (b_index b) = [[5%Q; 1%Q]; [3%Q; 1%Q]].
Proof. eexists. split; [vm_compute; reflexivity|]. by vm_compute. Qed.

(** Within the corpus.  When the index or the id map has not been loaded
    [search] fails with the index-not-ready error; over a loaded index of N
    vectors whose positions all have an id-map entry naming a document of
    the metadata, for a query embedded in the index's dimension and every
    [top_k] from 1 to N, [search] returns exactly [top_k] candidates, each
    resolved through the id map and the metadata. *)
Theorem search_top_k :
  (forall eng query top_k,
      index eng = None \/ id_map eng = None ->
      search eng query top_k
      = Raise (RuntimeError "Index not loaded. Call load_index() first."))
  /\ (forall eng query top_k ix idm,
        index eng = Some ix -> id_map eng = Some idm ->
        length (embed_query (embedder eng) query) = d ix ->
        (forall i : nat, (i < length (rows ix))%nat ->
           exists doc_id meta,
             idm !! pretty (Z.of_nat i) = Some doc_id
             /\ dict_get (metadata eng) doc_id = Some meta) ->
        1 <= top_k <= Z.of_nat (length (rows ix)) ->
        exists results,
          search eng query top_k = Ok results
          /\ length results = Z.to_nat top_k
          /\ Z.of_nat (length results) <= top_k
          /\ Forall (fun r => exists (i : nat) meta,
                       (i < length (rows ix))%nat
                       /\ idm !! pretty (Z.of_nat i) = Some (r_doc_id r)
                       /\ dict_get (metadata eng) (r_doc_id r) = Some meta
                       /\ r_path r = m_path meta) results).
Proof.
  split.
  - intros eng query top_k H. unfold search.
    destruct H as [-> | ->]; [done|]. by destruct (index eng).
  - intros eng query top_k ix idm Hix Hidm Hd Haligned Hk.
    unfold search. rewrite Hix, Hidm.
    destruct (faiss_search_in_range ix _ top_k Hd Hk)
      as (hits & -> & Hlen & Hrange).
    simpl.
    destruct (resolve_ok idm (metadata eng) hits) as (results & -> & Hlen' & Hall).
    { eapply Forall_impl; [exact Hrange|].
      intros hit (i & -> & Hi). by apply Haligned. }
    exists results. split; [done|]. split; [congruence|]. split; [lia|].
    apply Forall_forall. intros r Hr.
    apply list_elem_of_lookup in Hr as [j Hj].
    destruct (Forall2_lookup_r _ _ _ _ _ Hall Hj)
      as (hit & Hhit & _ & Hid & meta & Hmeta & Hpath).
    apply (Forall_lookup_1 _ _ _ _ Hrange) in Hhit as (i & Hi & Hlt).
    exists i, meta. rewrite <- Hi. done.
Qed.

Lemma search_top_k_witness :
  1 <= 2 <= 2
  /\ exists results,
       search Demo.loaded_engine "quantum physics" 2 = Ok results
       /\ length results = 2%nat.
Proof.
  split; [lia|].
  destruct (proj2 search_top_k Demo.loaded_engine "quantum physics" 2
              {| d := 2; rows := [[5%Q; 1%Q]; [3%Q; 1%Q]] |}
              (dump_keys (list_to_map [(0, "doc_001"); (1, "doc_002")])))
    as (results & Hres & Hlen & _).
  - reflexivity.
  - reflexivity.
  - reflexivity.
  - intros [|[|i]] Hi.
    + exists "doc_001", Demo.doc_001. split; reflexivity.
    + exists "doc_002", Demo.doc_002. split; reflexivity.
    + simpl in Hi. lia.
  - simpl. lia.
  - exists results. split; [exact Hres|exact Hlen].
Defined.

(** Asked for more neighbours than it holds rows, the index returns all
    its rows and fills the remaining places with the label -1. *)
Lemma faiss_search_beyond (ix : FaissIndex) (qvec : vec) (k : Z) :
  length qvec = d ix ->
  Z.of_nat (length (rows ix)) < k ->
  exists best,
    faiss_search ix qvec k
    = Ok (best ++ replicate (Z.to_nat k - length (rows ix)) (NO_SCORE, -1))
    /\ length best = length (rows ix)
    /\ (0 < Z.to_nat k - length (rows ix))%nat
    /\ Forall (fun hit => exists i : nat,
                 hit.2 = Z.of_nat i /\ (i < length (rows ix))%nat) best.
Proof.
  intros Hd Hk. unfold faiss_search.
  rewrite Hd, Nat.eqb_refl. simpl.
  destruct (Z.leb_spec k 0) as [?|_]; [lia|].
  set (scored := imap (fun i v => (dot qvec v, Z.of_nat i)) (rows ix)).
  set (ranked := sorted _ scored).
  assert (length ranked = length (rows ix)) as Hlen.
  { unfold ranked. rewrite sorted_length. unfold scored. by rewrite length_imap. }
  rewrite take_ge by lia.
  exists ranked. rewrite Hlen. split; [done|]. split; [done|]. split; [lia|].
  apply Forall_forall. intros hit Hin.
  unfold ranked in Hin. rewrite sorted_perm in Hin.
  apply elem_of_lookup_imap in Hin as (i & v & -> & Hv).
  exists i. split; [done|]. by eapply lookup_lt_Some.
Qed.

(** The result loop stops at the first position the id map does not
    have. *)
Lemma resolve_missing_key (idm : gmap string string) (md : Metadata)
    (hits rest : list (Q * Z)) (score : Q) (idx : Z) :
  Forall (fun hit => exists doc_id meta,
            idm !! pretty hit.2 = Some doc_id
            /\ dict_get md doc_id = Some meta) hits ->
  idm !! pretty idx = None ->
  resolve idm md (hits ++ (score, idx) :: rest) = Raise (KeyError (pretty idx)).
Proof.
  intros Hhits Hidx.
  induction Hhits as [|[sc i] hits (doc_id & meta & Hid & Hmeta) _ IH].
  - simpl. by rewrite Hidx.
  - simpl in *. rewrite Hid. simpl. rewrite Hmeta. simpl. by rewrite IH.
Qed.

(** C3: [search] has no answer for a [top_k] beyond the corpus.  Over a
    loaded index of N vectors whose positions all have an id-map entry
    naming a document of the metadata, as [build_index] writes them, and
    whose id map has no key -1, every [top_k] greater than N makes
    [search] raise [KeyError('-1')]: the index fills the places beyond its
    N rows with the label -1 and the result loop looks every label up in
    the id map.  So it is on the index built and loaded from the small
    corpus of two documents, for [top_k = 3] and for the default
    [top_k = 5], where the claim has [search] return at most two results. *)
Theorem search_beyond_corpus :
  (forall eng query top_k ix idm,
      index eng = Some ix -> id_map eng = Some idm ->
      length (embed_query (embedder eng) query) = d ix ->
      (forall i : nat, (i < length (rows ix))%nat ->
         exists doc_id meta,
           idm !! pretty (Z.of_nat i) = Some doc_id
           /\ dict_get (metadata eng) doc_id = Some meta) ->
      idm !! "-1" = None ->
      Z.of_nat (length (rows ix)) < top_k ->
      search eng query top_k = Raise (KeyError "-1"))
  /\ (exists ix idm, index Demo.loaded_engine = Some ix
                     /\ id_map Demo.loaded_engine = Some idm
                     /\ length (rows ix) = 2%nat)
  /\ search Demo.loaded_engine "quantum physics" 3 = Raise (KeyError "-1")
  /\ search Demo.loaded_engine "quantum physics" 5 = Raise (KeyError "-1").
Proof.
  split_and!.
  - intros eng query top_k ix idm Hix Hidm Hd Haligned Hneg Hk.
    unfold search. rewrite Hix, Hidm.
    destruct (faiss_search_beyond ix _ top_k Hd Hk)
      as (best & -> & Hlen & Hpad & Hrange).
    simpl.
    destruct (Z.to_nat top_k - length (rows ix))%nat as [|n]; [lia|].
    simpl. apply (resolve_missing_key idm (metadata eng) best _ NO_SCORE (-1)).
    + eapply Forall_impl; [exact Hrange|].
      intros hit (i & -> & Hi). by apply Haligned.
    + exact Hneg.
  - eexists _, _. split; [reflexivity|]. split; reflexivity.
  - by vm_compute.
  - by vm_compute.
Qed.

Lemma search_beyond_corpus_witness :
  Z.of_nat 2 < 3
  /\ search Demo.loaded_engine "quantum physics" 3 = Raise (KeyError "-1").
Proof.
  split; [simpl; lia|].
  apply (proj1 search_beyond_corpus Demo.loaded_engine "quantum physics" 3
               {| d := 2; rows := [[5%Q; 1%Q]; [3%Q; 1%Q]] |}
               (dump_keys (list_to_map [(0, "doc_001"); (1, "doc_002")]))).
  - reflexivity.
  - reflexivity.
  - reflexivity.
  - intros [|[|i]] Hi.
    + exists "doc_001", Demo.doc_001. split; reflexivity.
    + exists "doc_002", Demo.doc_002. split; reflexivity.
    + simpl in Hi. lia.
  - reflexivity.
  - simpl. lia.
Defined.

End SearchFacts.

(** * More on the embedding cache *)

Section CacheMore.
Import CacheManager.

Lemma reconcile_fold_dom (cm : t) (metas : list DocumentMeta)
    (acc : gmap string (option CacheEntry)) :
  dom (foldl (reconcile_step cm) acc metas)
  = dom acc ∪ list_to_set (m_doc_id <$> metas).
Proof.
  revert acc. induction metas as [|meta metas IH]; intros acc; simpl.
  - by rewrite union_empty_r_L.
  - rewrite IH. unfold reconcile_step. rewrite dom_insert_L.
    by rewrite (union_comm_L {[m_doc_id meta]}), <- union_assoc_L.
Qed.

(** X2: [bulk_get_changed] answers for exactly the doc_ids of the metas;
    for metas with distinct doc_ids the answer for a meta is a cache entry
    if and only if that entry is the one stored under the doc_id and its
    hash equals the meta's hash, and it is the absent marker whenever the
    stored hash differs or nothing is stored. *)
Theorem bulk_get_changed_answers (cm : t) (metas : list DocumentMeta) :
  dom (bulk_get_changed cm metas) = list_to_set (m_doc_id <$> metas)
  /\ (NoDup (m_doc_id <$> metas) ->
      forall meta, meta ∈ metas ->
        (forall entry,
            bulk_get_changed cm metas !! m_doc_id meta = Some (Some entry)
            <-> get cm (m_doc_id meta) = Some entry
                /\ c_hash entry = m_hash meta)
        /\ ((forall entry, get cm (m_doc_id meta) = Some entry ->
                           c_hash entry <> m_hash meta) ->
            bulk_get_changed cm metas !! m_doc_id meta = Some None)).
Proof.
  split.
  - rewrite bulk_get_changed_fold, reconcile_fold_dom, dom_empty_L.
    by rewrite union_empty_l_L.
  - intros Hnd meta Hin. rewrite bulk_get_changed_elem by done. split.
    + intros entry. unfold reconciled.
      destruct (get cm (m_doc_id meta)) as [cached|] eqn:Hget.
      * destruct (String.eqb_spec (c_hash cached) (m_hash meta)) as [Heq|Hne].
        -- split; [by intros [= <-]|]. by intros [[= <-] _].
        -- split; [done|]. intros [[= <-] ?]. done.
      * split; [done|]. by intros [? _].
    + intros Hmiss. f_equal. by apply reconciled_miss.
Qed.

Lemma bulk_get_changed_answers_witness :
  bulk_get_changed Demo.stale_cache [Demo.doc_001; Demo.doc_002] !! "doc_001"
  = Some None.
Proof.
  assert (NoDup (m_doc_id <$> [Demo.doc_001; Demo.doc_002])) as Hnd.
  { apply NoDup_cons. split; [|apply NoDup_singleton].
    intros H%list_elem_of_singleton. discriminate. }
  apply (proj2 (bulk_get_changed_answers Demo.stale_cache
                  [Demo.doc_001; Demo.doc_002]) Hnd Demo.doc_001).
  - apply elem_of_cons. by left.
  - intros entry Hget. vm_compute in Hget. inversion Hget. discriminate.
Defined.

End CacheMore.
(** * More on the index builder *)

Section BuildMore.
Import SearchEngine.

Lemma read_texts_Ok fs (all_docs : list DocumentMeta) (texts : list string) :
  read_texts fs all_docs = Ok texts <->
  Forall2 (fun m text => fs (m_path m) = Some text) all_docs texts.
Proof.
  revert texts. induction all_docs as [|meta rest IH]; intros texts; simpl.
  - split; [intros [= <-]; constructor|]. by intros ->%Forall2_nil_inv_l.
  - destruct (fs (m_path meta)) as [text|] eqn:Hfs.
    + destruct (read_texts fs rest) as [ts|e] eqn:Hrest; simpl.
      * split.
        -- intros [= <-]. constructor; [done|]. by apply IH.
        -- intros (t & ts' & Ht & Hts & ->)%Forall2_cons_inv_l.
           apply IH in Hts. congruence.
      * split; [done|].
        intros (t & ts' & Ht & Hts & ->)%Forall2_cons_inv_l.
        by apply IH in Hts.
    + split; [done|].
      intros (t & ts' & Ht & Hts & ->)%Forall2_cons_inv_l. congruence.
Qed.

Lemma read_texts_missing fs (all_docs : list DocumentMeta) (meta : DocumentMeta) :
  meta ∈ all_docs -> fs (m_path meta) = None ->
  exists path, read_texts fs all_docs = Raise (FileNotFoundError path)
               /\ fs path = None
               /\ path ∈ m_path <$> all_docs.
Proof.
  induction all_docs as [|m rest IH]; intros Hin Hfs.
  - by apply elem_of_nil in Hin.
  - simpl. destruct (fs (m_path m)) as [text|] eqn:Hm.
    + apply elem_of_cons in Hin as [->|Hin]; [congruence|].
      destruct (IH Hin Hfs) as (path & -> & Hp & Hel).
      exists path. split_and!; [done|done|]. by right.
    + exists (m_path m). split_and!; [done|done|]. by left.
Qed.

(** X3: a document with no cache entry is embedded afresh.  After a
    completed build over metadata with distinct doc_ids, its text was sent
    to the provider, the vector the provider returned for it is the vector
    at the document's position, and the cache holds for it an entry with
    that vector and the meta's hash. *)
Theorem build_index_miss_fresh eng fs clock b (i : nat) (meta : DocumentMeta) :
  NoDup (m_doc_id <$> (metadata eng).*2) ->
  build_index eng fs clock = Ok b ->
  (metadata eng).*2 !! i = Some meta ->
  CacheManager.get (cache eng) (m_doc_id meta) = None ->
  exists (j : nat) emb now,
    b_compute_indices b !! j = Some i
    /\ b_to_compute b !! j = fs (m_path meta)
    /\ embed_texts (embedder eng) (b_to_compute b) !! j = Some emb
    /\ rows (b_index b) !! i = Some emb
    /\ CacheManager.get (b_cache b) (m_doc_id meta)
       = Some {| c_doc_id := m_doc_id meta; c_embedding := emb;
                 c_hash := m_hash meta; c_updated_at := now |}.
Proof.
  intros Hnd Hb Hm Hget.
  destruct (build_index_facts _ _ _ _ Hb)
    as (_ & _ & (texts & Htexts & Htc) & _ & Hmiss).
  destruct (Hmiss Hnd i meta Hm Hget) as (j & emb & now & Hj & He & Hrow & Hc).
  exists j, emb, now. split_and!; try done.
  rewrite Htc, list_lookup_fmap, Hj. simpl.
  apply read_texts_Ok in Htexts.
  destruct (Forall2_lookup_l _ _ _ _ _ Htexts Hm) as (text & Ht & Hfs).
  rewrite Hfs. f_equal. by apply list_lookup_total_correct.
Qed.

Lemma build_index_miss_fresh_witness :
  exists b j emb now,
    build_index (Demo.engine Demo.stale_cache) Demo.fs Demo.clock = Ok b
    /\ b_compute_indices b !! j = Some 1%nat
    /\ rows (b_index b) !! 1%nat = Some emb
    /\ CacheManager.get (b_cache b) "doc_002"
       = Some {| c_doc_id := "doc_002"; c_embedding := emb;
                 c_hash := "41ab"; c_updated_at := now |}.
Proof.
  assert (NoDup (m_doc_id <$> (metadata (Demo.engine Demo.stale_cache)).*2))
    as Hnd.
  { apply NoDup_cons. split; [|apply NoDup_singleton].
    intros H%list_elem_of_singleton. discriminate. }
  eexists.
  match goal with
  | |- exists j emb now, build_index ?e ?f ?c = Ok ?b /\ _ =>
      assert (build_index e f c = Ok b) as Hb by (vm_compute; reflexivity);
      destruct (build_index_miss_fresh e f c b 1%nat Demo.doc_002 Hnd Hb
                  eq_refl eq_refl)
        as (j & emb & now & Hj & _ & _ & Hrow & Hc)
  end.
  exists j, emb, now. split; [exact Hb|]. split; [exact Hj|].
  split; [exact Hrow|exact Hc].
Defined.

Lemma build_index_keeps_entries eng fs clock b doc_id entry :
  build_index eng fs clock = Ok b ->
  CacheManager.get (cache eng) doc_id = Some entry ->
  CacheManager.get (b_cache b) doc_id = Some entry.
Proof.
  intros Hb Hget.
  destruct (build_index_inv _ _ _ _ Hb)
    as (texts & embs & k & _ & Hcc & Hfold & _).
  destruct (check_cache_spec _ _ _ _ _ _ Hcc) as (Hembs & _ & Hci & Hnd).
  set (l := zip (b_compute_indices b)
                (embed_texts (embedder eng) (b_to_compute b))) in *.
  assert (forall i, i ∈ l.*1 -> i ∈ b_compute_indices b) as Hl.
  { intros i. unfold l. rewrite fst_zip_take. apply subseteq_take. }
  apply store_loop_spec in Hfold as (_ & _ & _ & Hcache & _).
  - rewrite Hcache; [done|].
    intros i m Hi%Hl Hm Heq. apply Hci in Hi as (m' & Hm' & Hn). congruence.
  - unfold l. rewrite fst_zip_take.
    eapply sublist_NoDup; [exact Hnd|apply sublist_take].
  - intros i Hi%Hl. apply Hci in Hi as (m & Hm & _).
    split; [|by eexists]. rewrite Hembs, length_fmap. by eapply lookup_lt_Some.
Qed.

(** X4: a build only adds to the cache.  After a completed build every
    entry the cache held before is still there unchanged, whether or not
    its doc_id occurs in the metadata, and (for metadata with distinct
    doc_ids) every document of the metadata has an entry. *)
Theorem build_index_cache_grows eng fs clock b :
  build_index eng fs clock = Ok b ->
  (forall doc_id entry,
      CacheManager.get (cache eng) doc_id = Some entry ->
      CacheManager.get (b_cache b) doc_id = Some entry)
  /\ (NoDup (m_doc_id <$> (metadata eng).*2) ->
      forall meta, meta ∈ (metadata eng).*2 ->
        is_Some (CacheManager.get (b_cache b) (m_doc_id meta))).
Proof.
  intros Hb. split.
  - intros doc_id entry Hget. by eapply build_index_keeps_entries.
  - intros Hnd meta [i Hm]%list_elem_of_lookup.
    destruct (CacheManager.get (cache eng) (m_doc_id meta)) as [e|] eqn:Hget.
    + exists e. by eapply build_index_keeps_entries.
    + destruct (build_index_facts _ _ _ _ Hb) as (_ & _ & _ & _ & Hmiss).
      destruct (Hmiss Hnd i meta Hm Hget) as (j & emb & now & _ & _ & _ & Hc).
      by eexists.
Qed.

Lemma build_index_cache_grows_witness :
  exists b,
    build_index (Demo.engine Demo.stale_cache) Demo.fs Demo.clock = Ok b
    /\ CacheManager.get (b_cache b) "doc_001" = Some Demo.stale_entry.
Proof.
  eexists.
  match goal with
  | |- build_index ?e ?f ?c = Ok ?b /\ _ =>
      assert (build_index e f c = Ok b) as Hb by (vm_compute; reflexivity);
      split; [exact Hb|];
      apply (proj1 (build_index_cache_grows e f c b Hb) "doc_001")
  end.
  reflexivity.
Defined.

(** X5: a build fails, without result, when it cannot start: over empty
    metadata there is nothing to stack and it raises a value error, and
    when the file of a document is missing it raises the file-not-found
    error of a missing path of the metadata. *)
Theorem build_index_failures eng fs clock :
  (metadata eng = [] ->
   build_index eng fs clock
   = Raise (ValueError "need at least one array to concatenate"))
  /\ (forall meta, meta ∈ (metadata eng).*2 -> fs (m_path meta) = None ->
        exists path,
          build_index eng fs clock = Raise (FileNotFoundError path)
          /\ fs path = None /\ path ∈ m_path <$> (metadata eng).*2).
Proof.
  split.
  - intros Hmd. unfold build_index. by rewrite Hmd.
  - intros meta Hin Hfs.
    destruct (read_texts_missing fs _ meta Hin Hfs) as (path & Hr & Hp & Hel).
    exists path. split_and!; [|done|done].
    unfold build_index. by rewrite Hr.
Qed.

Lemma build_index_failures_witness :
  build_index (Demo.engine Demo.empty_cache) (fun _ => None) Demo.clock
  = Raise (FileNotFoundError "data/docs/doc_001.txt").
Proof.
  destruct (proj2 (build_index_failures (Demo.engine Demo.empty_cache)
                     (fun _ => None) Demo.clock) Demo.doc_001)
    as (path & Hb & _ & _).
  - apply elem_of_cons. by left.
  - reflexivity.
  - rewrite Hb. vm_compute in Hb. inversion Hb. reflexivity.
Defined.

End BuildMore.

(** * Alignment of the index with the metadata *)

Section Alignment.
Import SearchEngine.

(** C5: after a successful build over metadata with N documents (with
    distinct doc_ids) the index holds N vectors and the id map N entries;
    for every position [i < N] the id map has the key [i], in memory and
    under its decimal spelling in the file written, and its value is the
    doc_id of the i-th meta of the corpus metadata; the cache ends with an
    entry for that document holding the vector at position [i].  That
    vector is the provider's embedding of the text read from the
    document's file only when the cache had no entry for the document: an
    entry found under the doc_id supplies the vector whatever it was
    stored for.  In the small corpus with the entry of an earlier content
    of [doc_001], position 0 maps to [doc_001], whose text the provider
    embeds as (5, 1), while the vector at position 0 is (2, 1). *)
Theorem build_index_aligned :
  (forall eng fs clock b,
      NoDup (m_doc_id <$> (metadata eng).*2) ->
      build_index eng fs clock = Ok b ->
      let all_docs := (metadata eng).*2 in
      let N := length all_docs in
      length (rows (b_index b)) = N
      /\ size (b_id_map b) = N
      /\ b_store b = {| index_file := Some (b_index b);
                        idmap_file := Some (dump_keys (b_id_map b)) |}
      /\ forall i : nat, (i < N)%nat ->
           exists meta v entry,
             all_docs !! i = Some meta
             /\ b_id_map b !! Z.of_nat i = Some (m_doc_id meta)
             /\ dump_keys (b_id_map b) !! pretty (Z.of_nat i)
                = Some (m_doc_id meta)
             /\ rows (b_index b) !! i = Some v
             /\ CacheManager.get (b_cache b) (m_doc_id meta) = Some entry
             /\ c_embedding entry = v
             /\ match CacheManager.get (cache eng) (m_doc_id meta) with
                | Some stored => v = c_embedding stored
                | None =>
                    exists (j : nat) text,
                      fs (m_path meta) = Some text
                      /\ b_to_compute b !! j = Some text
                      /\ embed_texts (embedder eng) (b_to_compute b) !! j
                         = Some v
                end)
  /\ (exists b,
        build_index (Demo.engine Demo.stale_cache) Demo.fs Demo.clock = Ok b
        /\ length (rows (b_index b)) = 2%nat
        /\ b_id_map b !! 0 = Some "doc_001"
        /\ Demo.fs (m_path Demo.doc_001) = Some "quantum physics of the atom"
        /\ embed_texts Demo.provider ["quantum physics of the atom"]
           = [[5%Q; 1%Q]]
        /\ rows (b_index b) !! 0%nat = Some [2%Q; 1%Q]).
Proof.
  split.
  - intros eng fs clock b Hnd Hb all_docs N.
    destruct (build_index_positions _ _ _ _ Hnd Hb)
      as (Hlen & Hsize & Hstore & Hpos).
    destruct (build_index_facts _ _ _ _ Hb)
      as (_ & _ & (texts & Htexts & Htc) & Hhit & Hmiss).
    split; [done|]. split; [done|]. split; [done|].
    intros i Hi.
    destruct (Hpos i Hi)
      as (meta & v & entry & Hm & Hk1 & Hk2 & Hrow & Hget' & Hemb).
    exists meta, v, entry. do 6 (split; [done|]).
    destruct (CacheManager.get (cache eng) (m_doc_id meta)) as [e|] eqn:Hget.
    + destruct (Hhit i meta e Hm Hget) as [Hrow' _]. congruence.
    + destruct (Hmiss Hnd i meta Hm Hget)
        as (j & emb & now & Hj & He & Hrow' & _).
      apply read_texts_Ok in Htexts.
      destruct (Forall2_lookup_l _ _ _ _ _ Htexts Hm) as (text & Ht & Hfs).
      exists j, text. split; [done|]. split; [|congruence].
      rewrite Htc, list_lookup_fmap, Hj. simpl. f_equal.
      by apply list_lookup_total_correct.
  - eexists. split; [vm_compute; reflexivity|].
    split_and!; by vm_compute.
Qed.

Lemma build_index_aligned_witness :
  exists b,
    SearchEngine.build_index (Demo.engine Demo.warm_cache) Demo.fs Demo.clock
    = Ok b
    /\ length (rows (b_index b)) = 2%nat
    /\ size (b_id_map b) = 2%nat.
Proof.
  assert (NoDup (m_doc_id <$> (metadata (Demo.engine Demo.warm_cache)).*2))
    as Hnd.
  { apply NoDup_cons. split; [|apply NoDup_singleton].
    intros H%list_elem_of_singleton. discriminate. }
  eexists. split; [vm_compute; reflexivity|].
  match goal with
  | |- length (rows (b_index ?b)) = _ /\ _ =>
      pose proof (proj1 build_index_aligned (Demo.engine Demo.warm_cache)
                    Demo.fs Demo.clock b Hnd eq_refl) as (H1 & H2 & _)
  end.
  split; [exact H1|exact H2].
Defined.

End Alignment.

Section BuildOrder.
Import SearchEngine.

Lemma check_cache_increasing cm (all_docs : list DocumentMeta) (texts : list string) :
  StronglySorted lt (check_cache cm all_docs texts).2.
Proof.
  induction all_docs as [|meta all_docs IH] using rev_ind; [constructor|].
  rewrite check_cache_snoc.
  destruct (check_cache cm all_docs texts) as [[embs tc] ci] eqn:Hcc.
  destruct (check_cache_spec _ _ _ _ _ _ Hcc) as (_ & _ & Hci & _).
  simpl in *. unfold check_cache_step.
  destruct (CacheManager.get cm (m_doc_id meta)); simpl; [done|].
  apply StronglySorted_app_2; [|done|repeat constructor].
  intros i j Hi ->%list_elem_of_singleton.
  apply Hci in Hi as (m & Hm & _). by eapply lookup_lt_Some.
Qed.

Lemma check_cache_all_miss cm (all_docs : list DocumentMeta) (texts : list string) :
  (forall m, m ∈ all_docs -> CacheManager.get cm (m_doc_id m) = None) ->
  (check_cache cm all_docs texts).2 = seq 0 (length all_docs).
Proof.
  induction all_docs as [|meta all_docs IH] using rev_ind; intros Hall;
    [done|].
  rewrite check_cache_snoc.
  destruct (check_cache cm all_docs texts) as [[embs tc] ci] eqn:Hcc.
  simpl in IH. unfold check_cache_step.
  rewrite Hall by (apply elem_of_app; right; by left). simpl.
  rewrite IH by (intros m Hm; apply Hall, elem_of_app; by left).
  rewrite length_app. simpl. by rewrite seq_app.
Qed.

Lemma lookup_total_seq (texts : list string) :
  (fun i => texts !!! i) <$> seq 0 (length texts) = texts.
Proof.
  apply list_eq. intros i. rewrite list_lookup_fmap.
  destruct (texts !! i) as [t|] eqn:Ht.
  - rewrite lookup_seq_lt by (by eapply lookup_lt_Some). simpl.
    f_equal. by apply list_lookup_total_correct.
  - apply lookup_ge_None in Ht. by rewrite lookup_seq_ge.
Qed.

(** X6: what the provider receives.  In a completed build the positions
    sent to the provider are, in increasing order and once each, exactly
    the positions of the documents without a cache entry, and the texts
    sent are the contents of those documents' files in that order; when no
    document has an entry, all texts are sent in metadata order. *)
Theorem build_index_provider_input eng fs clock b :
  build_index eng fs clock = Ok b ->
  exists texts,
    Forall2 (fun m text => fs (m_path m) = Some text) (metadata eng).*2 texts
    /\ StronglySorted lt (b_compute_indices b)
    /\ (forall i : nat, i ∈ b_compute_indices b <->
          exists m, (metadata eng).*2 !! i = Some m
                    /\ CacheManager.get (cache eng) (m_doc_id m) = None)
    /\ b_to_compute b = (fun i => texts !!! i) <$> b_compute_indices b
    /\ ((forall m, m ∈ (metadata eng).*2 ->
                   CacheManager.get (cache eng) (m_doc_id m) = None) ->
        b_to_compute b = texts).
Proof.
  intros Hb.
  destruct (build_index_inv _ _ _ _ Hb)
    as (texts & embs & k & Htexts & Hcc & _).
  destruct (check_cache_spec _ _ _ _ _ _ Hcc) as (_ & Htc & Hci & _).
  exists texts. split_and!; try done.
  - by apply read_texts_Ok.
  - pose proof (check_cache_increasing (cache eng) (metadata eng).*2 texts) as H.
    by rewrite Hcc in H.
  - intros Hall.
    pose proof (check_cache_all_miss (cache eng) _ texts Hall) as H.
    rewrite Hcc in H. simpl in H. rewrite Htc, H.
    rewrite <- (read_texts_length _ _ _ Htexts). apply lookup_total_seq.
Qed.

Lemma build_index_provider_input_witness :
  exists b,
    build_index (Demo.engine Demo.empty_cache) Demo.fs Demo.clock = Ok b
    /\ b_to_compute b = ["quantum physics of the atom"; "cooking with rice"].
Proof.
  eexists.
  match goal with
  | |- build_index ?e ?f ?c = Ok ?b /\ _ =>
      assert (build_index e f c = Ok b) as Hb by (vm_compute; reflexivity);
      split; [exact Hb|];
      destruct (build_index_provider_input e f c b Hb)
        as (texts & Htexts & _ & _ & _ & Hall)
  end.
  rewrite Hall by (intros m Hm; reflexivity).
  apply read_texts_Ok in Htexts. vm_compute in Htexts. by inversion Htexts.
Defined.

Lemma store_loop_file (all_docs : list DocumentMeta) (clock : nat -> Z)
    (l : list (nat * vec)) :
  forall cm embeddings k cm' embeddings' k',
  foldl (store_step all_docs clock) (cm, embeddings, k) l
  = (cm', embeddings', k') ->
  (forall i, i ∈ l.*1 -> is_Some (all_docs !! i)) ->
  (l = [] \/ CacheManager.file cm = CacheManager.Stored (CacheManager._data cm)
   -> cm' = cm
      \/ CacheManager.file cm' = CacheManager.Stored (CacheManager._data cm'))
  /\ (l <> [] ->
      CacheManager.file cm' = CacheManager.Stored (CacheManager._data cm')).
Proof.
  induction l as [|[i e] l IH]; intros cm embs k cm' embs' k' H Hin.
  - inversion H; subst. split; [by left|done].
  - simpl in H. destruct (Hin i ltac:(by left)) as [m Hm]. rewrite Hm in H.
    apply IH in H as [H1 H2]; [|intros j Hj; apply Hin; by right].
    assert (CacheManager.file cm'
            = CacheManager.Stored (CacheManager._data cm')) as Hfile.
    { destruct l as [|p l]; [|by apply H2].
      destruct H1 as [->|?]; [by right| |]; done. }
    split; [by right|done].
Qed.

(** X7: the cache file after a build.  When a completed build had nothing
    to compute the cache manager, file included, is untouched; otherwise
    the file holds exactly the entries the manager has in memory. *)
Theorem build_index_cache_file eng fs clock b :
  build_index eng fs clock = Ok b ->
  (b_compute_indices b = [] -> b_cache b = cache eng)
  /\ (b_compute_indices b <> [] ->
      CacheManager.file (b_cache b)
      = CacheManager.Stored (CacheManager._data (b_cache b))).
Proof.
  intros Hb.
  destruct (build_index_inv _ _ _ _ Hb)
    as (texts & embs & k & _ & Hcc & Hfold & _).
  destruct (check_cache_spec _ _ _ _ _ _ Hcc) as (Hembs & _ & Hci & Hnd).
  set (docs := (metadata eng).*2) in *.
  split.
  - intros Hnil. rewrite Hnil in Hfold. simpl in Hfold. by inversion Hfold.
  - intros Hne.
    set (l := zip (b_compute_indices b)
                  (embed_texts (embedder eng) (b_to_compute b))) in *.
    assert (forall i, i ∈ l.*1 -> i ∈ b_compute_indices b) as Hl.
    { intros i. unfold l. rewrite fst_zip_take. apply subseteq_take. }
    assert (forall i, i ∈ l.*1 -> is_Some (docs !! i)) as Hdocs.
    { intros i Hi%Hl. apply Hci in Hi as (m & Hm & _). by eexists. }
    pose proof (store_loop_file _ _ _ _ _ _ _ _ _ Hfold Hdocs) as [_ Hfile].
    apply Hfile. intros Hnil.
    destruct (b_compute_indices b) as [|i ci] eqn:Hcis; [done|].
    assert (i ∈ i :: ci) as Hi by (by left).
    apply Hci in Hi as (m & Hm & Hget).
    apply store_loop_spec in Hfold as (_ & Hother & _).
    + specialize (Hother i). rewrite Hnil in Hother.
      specialize (Hother ltac:(by intros ?%elem_of_nil)).
      rewrite Hembs, !list_lookup_fmap, Hm in Hother. simpl in Hother.
      rewrite Hget in Hother. simpl in Hother.
      by destruct (rows (b_index b) !! i).
    + rewrite Hnil. constructor.
    + rewrite Hnil. by intros j ?%elem_of_nil.
Qed.

Lemma build_index_cache_file_witness :
  exists b,
    build_index (Demo.engine Demo.empty_cache) Demo.fs Demo.clock = Ok b
    /\ CacheManager.file (b_cache b)
       = CacheManager.Stored (CacheManager._data (b_cache b)).
Proof.
  eexists.
  match goal with
  | |- build_index ?e ?f ?c = Ok ?b /\ _ =>
      assert (build_index e f c = Ok b) as Hb by (vm_compute; reflexivity);
      split; [exact Hb|];
      apply (proj2 (build_index_cache_file e f c b Hb))
  end.
  discriminate.
Defined.

End BuildOrder.

(** * More on the retriever and the pipeline *)

Section SearchMore.
Import SearchEngine.

Lemma sorted_fixpoint {A} (before : A -> A -> bool) (l : list A) :
  StronglySorted (fun a b => before a b = true) l -> sorted before l = l.
Proof.
  induction 1 as [|x l Hl IH Hx]; [done|].
  simpl. rewrite IH. destruct l as [|y l]; [done|].
  simpl. by rewrite (Forall_inv Hx).
Qed.

Lemma hit_ge_total (x y : Q * Z) :
  Qle_bool y.1 x.1 = true \/ Qle_bool x.1 y.1 = true.
Proof.
  rewrite !Qle_bool_iff.
  destruct (Qlt_le_dec x.1 y.1) as [H|H]; [right|left]; [|done].
  by apply Qlt_le_weak.
Qed.

Lemma hit_ge_trans (x y z : Q * Z) :
  Qle_bool y.1 x.1 = true -> Qle_bool z.1 y.1 = true ->
  Qle_bool z.1 x.1 = true.
Proof.
  rewrite !Qle_bool_iff. intros H1 H2. eapply Qle_trans; eassumption.
Qed.

Lemma scores_sorted_transfer (hits : list (Q * Z)) (results : list Candidate) :
  Forall2 (fun hit r => r_score r = hit.1) hits results ->
  StronglySorted (fun x y => Qle_bool y.1 x.1 = true) hits ->
  StronglySorted (fun a b => Ranker.score_ge a b = true) results.
Proof.
  induction 1 as [|hit r hits results Hr Hrest IH]; intros Hs; [constructor|].
  apply StronglySorted_inv in Hs as [Hs Hhd].
  constructor; [by apply IH|].
  apply Forall_forall. intros r' [j Hj]%list_elem_of_lookup.
  destruct (Forall2_lookup_r _ _ _ _ _ Hrest Hj) as (hit' & Hhit' & Hsc).
  rewrite Forall_forall in Hhd.
  specialize (Hhd hit' ltac:(by eapply list_elem_of_lookup_2)).
  unfold Ranker.score_ge. by rewrite Hr, Hsc.
Qed.

Lemma search_Ok_inv eng query top_k results :
  search eng query top_k = Ok results ->
  exists ix idm hits,
    index eng = Some ix /\ id_map eng = Some idm
    /\ faiss_search ix (embed_query (embedder eng) query) top_k = Ok hits
    /\ resolve idm (metadata eng) hits = Ok results.
Proof.
  unfold search. destruct (index eng) as [ix|]; [|done].
  destruct (id_map eng) as [idm|]; [|done].
  destruct (faiss_search ix _ top_k) as [hits|] eqn:Hf; [|done].
  simpl. intros Hr. by exists ix, idm, hits.
Qed.

Lemma resolve_Ok_inv (idm : gmap string string) (md : Metadata)
    (hits : list (Q * Z)) (results : list Candidate) :
  resolve idm md hits = Ok results ->
  Forall2 (fun hit r =>
             r_score r = hit.1
             /\ idm !! pretty hit.2 = Some (r_doc_id r)
             /\ exists meta, dict_get md (r_doc_id r) = Some meta
                             /\ r_path r = m_path meta) hits results.
Proof.
  revert results. induction hits as [|[score idx] hits IH]; intros results.
  - intros [= <-]. constructor.
  - simpl. destruct (idm !! pretty idx) as [doc_id|] eqn:Hid; [|done]. simpl.
    destruct (dict_get md doc_id) as [meta|] eqn:Hmeta; [|done]. simpl.
    destruct (resolve idm md hits) as [rs|]; [|done]. simpl.
    intros [= <-]. constructor; [|by apply IH].
    simpl. split_and!; try done. by exists meta.
Qed.

Lemma faiss_search_in_range_inv (ix : FaissIndex) (qvec : vec) (k : Z)
    (hits : list (Q * Z)) :
  1 <= k <= Z.of_nat (length (rows ix)) ->
  faiss_search ix qvec k = Ok hits ->
  length hits = Z.to_nat k
  /\ StronglySorted (fun x y => Qle_bool y.1 x.1 = true) hits
  /\ NoDup hits.*2
  /\ Forall (fun hit => exists (i : nat) v,
               rows ix !! i = Some v
               /\ hit = (dot qvec v, Z.of_nat i)) hits.
Proof.
  intros Hk. unfold faiss_search.
  destruct (negb _); [done|].
  destruct (Z.leb_spec k 0) as [?|_]; [lia|].
  set (scored := imap (fun i v => (dot qvec v, Z.of_nat i)) (rows ix)).
  set (ranked := sorted _ scored).
  assert (ranked ≡ₚ scored) as Hperm by apply sorted_perm.
  assert (length ranked = length (rows ix)) as Hlen.
  { rewrite Hperm. unfold scored. by rewrite length_imap. }
  assert (length (take (Z.to_nat k) ranked) = Z.to_nat k) as Htake.
  { rewrite length_take. lia. }
  rewrite Htake, Nat.sub_diag. simpl. rewrite app_nil_r.
  intros [= <-]. split; [done|].
  pose proof (take_drop (Z.to_nat k) ranked) as Hsplit.
  split_and!.
  - apply (StronglySorted_prefix _ _ (drop (Z.to_nat k) ranked)).
    rewrite Hsplit. apply sorted_StronglySorted.
    + apply hit_ge_total.
    + intros x y z. apply hit_ge_trans.
  - eapply sublist_NoDup; [|apply fmap_sublist, sublist_take].
    rewrite Hperm. unfold scored. rewrite fmap_imap.
    rewrite (imap_ext _ (fun i _ => Z.of_nat i)); [|done].
    rewrite imap_seq_0. apply NoDup_fmap_2; [apply _|apply NoDup_seq].
  - apply Forall_forall. intros hit Hin%subseteq_take.
    rewrite Hperm in Hin.
    apply elem_of_lookup_imap in Hin as (i & v & -> & Hv). by exists i, v.
Qed.

(** The candidates come out of [search] as [rerank] would leave them. *)
Lemma search_ranked_aux eng query top_k ix idm results :
  index eng = Some ix -> id_map eng = Some idm ->
  1 <= top_k <= Z.of_nat (length (rows ix)) ->
  search eng query top_k = Ok results ->
  length results = Z.to_nat top_k
  /\ StronglySorted (fun a b => (r_score b <= r_score a)%Q) results
  /\ Ranker.rerank results top_k = results.
Proof.
  intros Hix Hidm Hk Hs.
  destruct (search_Ok_inv _ _ _ _ Hs) as (ix' & idm' & hits & Hix' & Hidm' & Hf & Hr).
  assert (ix' = ix) as -> by congruence.
  destruct (faiss_search_in_range_inv _ _ _ _ Hk Hf) as (Hlen & Hsorted & _).
  pose proof (resolve_Ok_inv _ _ _ _ Hr) as Hall.
  assert (length results = Z.to_nat top_k) as Hlen'.
  { rewrite <- Hlen. symmetry. by eapply Forall2_length. }
  assert (StronglySorted (fun a b => Ranker.score_ge a b = true) results) as Hss.
  { eapply scores_sorted_transfer; [|exact Hsorted].
    eapply Forall2_impl; [exact Hall|]. by intros hit r [? _]. }
  split_and!.
  - done.
  - eapply StronglySorted_weaken; [|exact Hss].
    intros a b. unfold Ranker.score_ge. by rewrite Qle_bool_iff.
  - unfold Ranker.rerank. rewrite sorted_fixpoint by done.
    rewrite slice_to_nonneg by lia. apply take_ge. lia.
Qed.

(** X8: the candidates [search] returns.  Over a loaded index of N vectors
    and for [top_k] from 1 to N, whenever [search] returns, it returns
    exactly [top_k] candidates in non-increasing score order, for pairwise
    distinct positions of the index; each candidate's doc_id is what the
    id map gives for its position and its path is that of the doc_id's
    meta; and [rerank] with the same [top_k] leaves the list as it is,
    whatever the order of candidates with equal scores. *)
Theorem search_ranked eng query top_k ix idm results :
  index eng = Some ix -> id_map eng = Some idm ->
  1 <= top_k <= Z.of_nat (length (rows ix)) ->
  search eng query top_k = Ok results ->
  length results = Z.to_nat top_k
  /\ StronglySorted (fun a b => (r_score b <= r_score a)%Q) results
  /\ Ranker.rerank results top_k = results
  /\ exists positions : list nat,
       NoDup positions
       /\ Forall2 (fun (i : nat) r =>
                     (i < length (rows ix))%nat
                     /\ exists meta,
                          idm !! pretty (Z.of_nat i) = Some (r_doc_id r)
                          /\ dict_get (metadata eng) (r_doc_id r) = Some meta
                          /\ r_path r = m_path meta) positions results.
Proof.
  intros Hix Hidm Hk Hs.
  destruct (search_ranked_aux _ _ _ _ _ _ Hix Hidm Hk Hs)
    as (Hlen & Hsorted & Hrerank).
  split; [done|]. split; [done|]. split; [done|].
  destruct (search_Ok_inv _ _ _ _ Hs)
    as (ix' & idm' & hits & Hix' & Hidm' & Hf & Hr).
  assert (ix' = ix) as -> by congruence.
  assert (idm' = idm) as -> by congruence.
  destruct (faiss_search_in_range_inv _ _ _ _ Hk Hf) as (_ & _ & Hnd & Hhits).
  pose proof (resolve_Ok_inv _ _ _ _ Hr) as Hall.
  exists (Z.to_nat <$> hits.*2). split.
  - apply NoDup_fmap_2_strong; [|done].
    intros x y Hx Hy Heq.
    apply list_elem_of_fmap in Hx as (hx & -> & Hx).
    apply list_elem_of_fmap in Hy as (hy & -> & Hy).
    rewrite Forall_forall in Hhits.
    destruct (Hhits hx Hx) as (i & ? & _ & ->).
    destruct (Hhits hy Hy) as (j & ? & _ & ->).
    simpl in *. lia.
  - rewrite <- list_fmap_compose. apply Forall2_fmap_l.
    clear -Hall Hhits. revert Hhits.
    induction Hall as [|hit r hits results (Hsc & Hid & meta & Hm & Hp) _ IH];
      intros Hhits; [constructor|].
    apply Forall_cons in Hhits as [(i & v & Hv & ->) Hhits].
    constructor; [|by apply IH].
    simpl in *. rewrite Nat2Z.id.
    split; [by eapply lookup_lt_Some|by exists meta].
Qed.

Lemma search_ranked_witness :
  exists results,
    search Demo.loaded_engine "quantum physics" 2 = Ok results
    /\ Ranker.rerank results 2 = results.
Proof.
  eexists.
  match goal with
  | |- search ?e ?q ?k = Ok ?r /\ _ =>
      assert (search e q k = Ok r) as Hs by (vm_compute; reflexivity);
      split; [exact Hs|];
      apply (search_ranked e q k
               {| d := 2; rows := [[5%Q; 1%Q]; [3%Q; 1%Q]] |}
               (dump_keys (list_to_map [(0, "doc_001"); (1, "doc_002")]))
               r eq_refl eq_refl)
  end.
  - simpl. lia.
  - exact Hs.
Defined.

(** X9: build, load, search.  After a completed build over metadata keyed
    by distinct doc_ids, an engine that loads the files written answers
    every query that the provider embeds in the index's dimension: for
    [top_k] from 1 to the number of documents [search] returns exactly
    [top_k] candidates, each carrying the doc_id and path of a document
    of the metadata. *)
Theorem built_index_answers eng fs clock b eng' query top_k :
  Forall (fun kv => kv.1 = m_doc_id kv.2) (metadata eng) ->
  NoDup (m_doc_id <$> (metadata eng).*2) ->
  build_index eng fs clock = Ok b ->
  load_index (with_cache eng (b_cache b)) (b_store b) = Ok eng' ->
  length (embed_query (embedder eng) query) = d (b_index b) ->
  1 <= top_k <= Z.of_nat (length (metadata eng)) ->
  exists results,
    search eng' query top_k = Ok results
    /\ length results = Z.to_nat top_k
    /\ Forall (fun r => exists meta,
                 meta ∈ (metadata eng).*2
                 /\ r_doc_id r = m_doc_id meta
                 /\ r_path r = m_path meta) results.
Proof.
  intros Hwf Hnd Hb Hload Hd Hk.
  destruct (build_index_positions _ _ _ _ Hnd Hb) as (Hlen & _ & Hstore & Hpos).
  rewrite length_fmap in Hlen.
  unfold load_index in Hload. rewrite Hstore in Hload. simpl in Hload.
  inversion Hload; subst eng'; clear Hload.
  unfold search. simpl.
  destruct (faiss_search_in_range (b_index b)
              (embed_query (embedder eng) query) top_k Hd)
    as (hits & -> & Hhl & Hrange); [lia|].
  simpl.
  assert (forall i : nat, (i < length (rows (b_index b)))%nat ->
            exists meta, (metadata eng).*2 !! i = Some meta
              /\ dump_keys (b_id_map b) !! pretty (Z.of_nat i)
                 = Some (m_doc_id meta)
              /\ dict_get (metadata eng) (m_doc_id meta) = Some meta) as Hal.
  { intros i Hi. rewrite Hlen, <- (length_fmap snd) in Hi.
    destruct (Hpos i Hi) as (meta & v & entry & Hm & _ & Hkey & _).
    exists meta. split_and!; try done.
    apply dict_get_elem; try done. by eapply list_elem_of_lookup_2. }
  destruct (resolve_ok (dump_keys (b_id_map b)) (metadata eng) hits)
    as (results & Hres & Hrl & Hall).
  { eapply Forall_impl; [exact Hrange|].
    intros hit (i & -> & Hi). destruct (Hal i Hi) as (meta & _ & ? & ?).
    by exists (m_doc_id meta), meta. }
  exists results. split; [done|]. split; [congruence|].
  apply Forall_forall. intros r [j Hj]%list_elem_of_lookup.
  destruct (Forall2_lookup_r _ _ _ _ _ Hall Hj)
    as (hit & Hhit & _ & Hid & meta & Hmeta & Hpath).
  apply (Forall_lookup_1 _ _ _ _ Hrange) in Hhit as (i & Hi & Hlt).
  destruct (Hal i Hlt) as (meta' & Hm' & Hkey' & Hget').
  rewrite Hi, Hkey' in Hid. injection Hid as Hid.
  rewrite <- Hid, Hget' in Hmeta. injection Hmeta as <-.
  exists meta'. split_and!; try done. by eapply list_elem_of_lookup_2.
Qed.

Lemma built_index_answers_witness :
  exists b eng' results,
    build_index (Demo.engine Demo.warm_cache) Demo.fs Demo.clock = Ok b
    /\ load_index (with_cache (Demo.engine Demo.warm_cache) (b_cache b))
                  (b_store b) = Ok eng'
    /\ search eng' "rice" 2 = Ok results
    /\ length results = 2%nat.
Proof.
  eexists _, _.
  match goal with
  | |- exists results, build_index ?e ?f ?c = Ok ?b /\ load_index ?e1 ?s = Ok ?e2 /\ _ =>
      assert (build_index e f c = Ok b) as Hb by (vm_compute; reflexivity);
      assert (load_index e1 s = Ok e2) as Hl by reflexivity;
      destruct (built_index_answers e f c b e2 "rice" 2) as (results & Hs & Hlen & _)
  end.
  - repeat constructor.
  - apply NoDup_cons. split; [|apply NoDup_singleton].
    intros H%list_elem_of_singleton. discriminate.
  - exact Hb.
  - exact Hl.
  - reflexivity.
  - simpl. lia.
  - exists results. split; [exact Hb|]. split; [exact Hl|].
    split; [exact Hs|exact Hlen].
Defined.

End SearchMore.

(** * The pipeline, the endpoint and the explanation *)

Section PipelineMore.
Import SearchEngine.

Lemma take_chars_length (n : nat) (s : string) :
  String.length (QueryPipeline.take_chars n s) = Nat.min n (String.length s).
Proof.
  revert s. induction n as [|n IH]; intros [|c s]; simpl; try done.
  by rewrite IH.
Qed.

Lemma replace_newlines_length (s : string) :
  String.length (QueryPipeline.replace_newlines s) = String.length s.
Proof. induction s as [|c s IH]; simpl; [done|]. by rewrite IH. Qed.

Lemma replace_newlines_clean (s : string) :
  Forall (fun c => c <> "010"%char)
         (list_ascii_of_string (QueryPipeline.replace_newlines s)).
Proof.
  induction s as [|c s IH]; simpl; [constructor|].
  constructor; [|done].
  destruct (Ascii.eqb_spec c "010"%char); [done|done].
Qed.

(** What [snippet_of] gives for a path. *)
Lemma snippet_of_cases (fs : string -> option string) (path : string) :
  match fs path with
  | None => QueryPipeline.snippet_of fs path = "[File not found]"
  | Some text =>
      QueryPipeline.snippet_of fs path
      = QueryPipeline.replace_newlines (QueryPipeline.take_chars 230 text)
      /\ String.length (QueryPipeline.snippet_of fs path)
         = Nat.min 230 (String.length text)
      /\ Forall (fun c => c <> "010"%char)
                (list_ascii_of_string (QueryPipeline.snippet_of fs path))
  end.
Proof.
  unfold QueryPipeline.snippet_of. destruct (fs path) as [text|]; [|done].
  split; [done|]. split.
  - by rewrite replace_newlines_length, take_chars_length.
  - apply replace_newlines_clean.
Qed.

(** X11: [query] answers with one item per reranked candidate, in order:
    the item keeps the candidate's doc_id and path, carries the rounded
    score, and its snippet is the first 230 characters of the document
    with every newline replaced by a space, or the placeholder when the
    file is missing, which does not abort the query.  An error of [search]
    leaves [query] unchanged.  Over a loaded index and for [top_k] within
    the number of vectors the items are in the order [search] returned
    the candidates. *)
Theorem query_items (round_score : Q -> Q) (qp : QueryPipeline.t)
    (fs : string -> option string) (query : string) (top_k : Z) :
  (forall e,
      search (QueryPipeline.search_engine qp) query top_k = Raise e ->
      QueryPipeline.query round_score qp fs query top_k = Raise e)
  /\ (forall results,
        search (QueryPipeline.search_engine qp) query top_k = Ok results ->
        exists items,
          QueryPipeline.query round_score qp fs query top_k = Ok items
          /\ Forall2
               (fun r item =>
                  QueryPipeline.q_doc_id item = r_doc_id r
                  /\ QueryPipeline.q_path item = r_path r
                  /\ QueryPipeline.q_score item = round_score (r_score r)
                  /\ match fs (r_path r) with
                     | None => QueryPipeline.q_snippet item = "[File not found]"
                     | Some text =>
                         QueryPipeline.q_snippet item
                         = QueryPipeline.replace_newlines
                             (QueryPipeline.take_chars 230 text)
                         /\ String.length (QueryPipeline.q_snippet item)
                            = Nat.min 230 (String.length text)
                         /\ Forall (fun c => c <> "010"%char)
                              (list_ascii_of_string
                                 (QueryPipeline.q_snippet item))
                     end)
               (Ranker.rerank results top_k) items
          /\ (forall ix,
                index (QueryPipeline.search_engine qp) = Some ix ->
                1 <= top_k <= Z.of_nat (length (rows ix)) ->
                QueryPipeline.q_doc_id <$> items = r_doc_id <$> results)).
Proof.
  split.
  - intros e He. unfold QueryPipeline.query. by rewrite He.
  - intros results Hs. unfold QueryPipeline.query. rewrite Hs. simpl.
    eexists. split; [done|]. split.
    + apply Forall2_fmap_r, Forall_Forall2_diag, Forall_forall.
      intros r _. simpl. split_and!; try done.
      apply snippet_of_cases.
    + intros ix Hix Hk.
      destruct (search_Ok_inv _ _ _ _ Hs) as (ix' & idm & hits & _ & Hidm & _).
      destruct (search_ranked_aux _ _ _ ix idm results Hix Hidm Hk Hs)
        as (_ & _ & ->).
      rewrite <- list_fmap_compose. done.
Qed.

Lemma query_items_witness :
  QueryPipeline.query (fun q => q)
    {| QueryPipeline.search_engine := Demo.engine Demo.empty_cache;
       QueryPipeline.metadata := Demo.corpus |}
    Demo.fs "rice" 1
  = Raise (RuntimeError "Index not loaded. Call load_index() first.").
Proof.
  apply (proj1 (query_items (fun q => q)
                  {| QueryPipeline.search_engine := Demo.engine Demo.empty_cache;
                     QueryPipeline.metadata := Demo.corpus |}
                  Demo.fs "rice" 1)).
  reflexivity.
Defined.

Example query_demo :
  QueryPipeline.query (fun q => q)
    {| QueryPipeline.search_engine := Demo.loaded_engine;
       QueryPipeline.metadata := Demo.corpus |}
    Demo.fs "rice" 1
  = Ok [ {| QueryPipeline.q_doc_id := "doc_001"; QueryPipeline.q_score := 6;
            QueryPipeline.q_path := "data/docs/doc_001.txt";
            QueryPipeline.q_snippet := "quantum physics of the atom" |} ].
Proof. by vm_compute. Qed.

(** X12: [QueryPipeline()] over a fixed file system never fails in its own
    reading of the metadata: whenever it raises, the error is that of the
    engine's constructor (file-not-found for a missing metadata file) or
    that of [load_index]; when it succeeds the index and the id map are
    the ones in the store and the metadata is what the file holds. *)
Theorem pipeline_init_outcomes provider cf metadata_file store :
  (forall e, QueryPipeline.init provider cf metadata_file store = Raise e ->
      init provider cf metadata_file = Raise e
      \/ exists eng, init provider cf metadata_file = Ok eng
                     /\ load_index eng store = Raise e)
  /\ (forall qp, QueryPipeline.init provider cf metadata_file store = Ok qp ->
        metadata_file = Some (QueryPipeline.metadata qp)
        /\ index (QueryPipeline.search_engine qp) = index_file store
        /\ id_map (QueryPipeline.search_engine qp) = idmap_file store
        /\ is_Some (index_file store) /\ is_Some (idmap_file store)).
Proof.
  unfold QueryPipeline.init.
  destruct (init provider cf metadata_file) as [eng|e0] eqn:Hinit; simpl.
  - assert (exists md, metadata_file = Some md) as [md ->].
    { unfold init in Hinit. destruct provider; [|done]. simpl in Hinit.
      destruct (CacheManager.init cf); [|done]. simpl in Hinit.
      destruct metadata_file; [by eexists|done]. }
    unfold load_index.
    destruct (index_file store) as [ix|]; simpl.
    + destruct (idmap_file store) as [idm|]; simpl.
      * split; [done|]. intros qp [= <-]. simpl. by split_and!.
      * split; [|done]. intros e [= <-]. right. by exists eng.
    + split; [|done]. intros e [= <-]. right. by exists eng.
  - split; [|done]. intros e [= <-]. by left.
Qed.

Lemma pipeline_init_outcomes_witness :
  init (Ok Demo.provider) CacheManager.Missing None
  = Raise (FileNotFoundError "Metadata file not found. Run preprocessing first.")
  \/ exists eng, init (Ok Demo.provider) CacheManager.Missing None = Ok eng
                 /\ load_index eng Demo.built_store
                    = Raise (FileNotFoundError
                               "Metadata file not found. Run preprocessing first.").
Proof.
  apply (proj1 (pipeline_init_outcomes (Ok Demo.provider) CacheManager.Missing
                  None Demo.built_store)).
  reflexivity.
Defined.

End PipelineMore.

Section ExplainMore.
Import Explainer.

Lemma keyword_overlap_length (query doc_text : string) (top_n : Z) :
  0 <= top_n ->
  Z.of_nat (length (keyword_overlap query doc_text top_n).1) <= top_n.
Proof.
  intros Hn. unfold keyword_overlap.
  destruct (extract_keywords query true); simpl; [lia|].
  by apply slice_to_length.
Qed.

Lemma keyword_overlap_empty_doc (query : string) (top_n : Z) :
  (keyword_overlap query "" top_n).1 = [].
Proof.
  assert (extract_keywords "" true = []) as He by reflexivity.
  unfold keyword_overlap. rewrite He.
  destruct (extract_keywords query true) as [|t qs]; [done|].
  cbv zeta. rewrite list_to_set_nil, intersection_empty_r_L, elements_empty.
  simpl. unfold slice_to. destruct (top_n <? 0); apply take_nil.
Qed.

Lemma explain_match_empty_doc (round_ratio : Q -> Q) (round_norm : R -> R)
    (query : string) :
  e_overlap_keywords (explain_match round_ratio round_norm query "") = []
  /\ e_why_matched (explain_match round_ratio round_norm query "")
     = SEMANTIC_ONLY.
Proof.
  unfold explain_match.
  pose proof (keyword_overlap_empty_doc query default_top_n) as Hempty.
  destruct (keyword_overlap query "" default_top_n) as [kws ratio].
  simpl in *. by subst kws.
Qed.

(** X13: the explanation.  [explain_match] reports the keywords of
    [keyword_overlap] under its default limit, at most ten; its sentence is
    the semantic-similarity sentence exactly when there is no keyword, and
    otherwise names the first five keywords separated by commas; for the
    empty document text (what the endpoint passes when a file cannot be
    read) there is no keyword and the sentence is the semantic one. *)
Theorem explain_match_why (round_ratio : Q -> Q) (round_norm : R -> R)
    (query doc_text : string) :
  let ex := explain_match round_ratio round_norm query doc_text in
  e_overlap_keywords ex = (keyword_overlap query doc_text default_top_n).1
  /\ (length (e_overlap_keywords ex) <= 10)%nat
  /\ (e_why_matched ex = SEMANTIC_ONLY <-> e_overlap_keywords ex = [])
  /\ (e_overlap_keywords ex <> [] ->
      e_why_matched ex
      = "Matched because query keywords "
        +:+ String.concat ", " (take 5 (e_overlap_keywords ex))
        +:+ " appear in the document.")
  /\ e_overlap_ratio ex
     = round_ratio (keyword_overlap query doc_text default_top_n).2
  /\ e_doc_length_norm ex = round_norm (doc_length_norm doc_text)
  /\ (doc_text = "" ->
      e_overlap_keywords ex = [] /\ e_why_matched ex = SEMANTIC_ONLY).
Proof.
  intros ex. subst ex. unfold explain_match.
  pose proof (keyword_overlap_length query doc_text default_top_n
                ltac:(by unfold default_top_n)) as Hlen.
  pose proof (keyword_overlap_empty_doc query default_top_n) as Hempty.
  destruct (keyword_overlap query doc_text default_top_n) as [kws ratio] eqn:Hk.
  simpl in *. unfold default_top_n in Hlen.
  split; [done|]. split; [lia|].
  assert (kws <> [] ->
          "Matched because query keywords "
          +:+ String.concat ", " (take 5 kws) +:+ " appear in the document."
          <> SEMANTIC_ONLY) as Hne.
  { intros _ H. unfold SEMANTIC_ONLY in H. simpl in H. discriminate H. }
  split_and!; try done.
  - destruct kws as [|kw kws]; [done|]. split; [|done].
    intros H. by destruct (Hne ltac:(done)).
  - intros Hkws. by destruct kws.
  - intros ->. rewrite Hk in Hempty. simpl in Hempty. by subst kws.
Qed.

Lemma explain_match_why_witness :
  e_overlap_keywords (explain_match (fun q => q) (fun r => r) "quantum physics" "")
  = []
  /\ e_why_matched (explain_match (fun q => q) (fun r => r) "quantum physics" "")
     = SEMANTIC_ONLY.
Proof.
  apply (proj2 (proj2 (proj2 (proj2 (proj2 (proj2
           (explain_match_why (fun q => q) (fun r => r) "quantum physics" ""))))))).
  reflexivity.
Defined.

End ExplainMore.

Section ApiMore.

Lemma rstrip_head (c : ascii) (s : string) :
  Api.is_space c = false -> Api.rstrip (String c s) <> "".
Proof. intros Hc. simpl. destruct (Api.rstrip s); by rewrite ?Hc. Qed.

Lemma strip_empty_iff (s : string) : Api.strip s = "" <-> blank s.
Proof.
  unfold Api.strip, blank. induction s as [|c s IH]; [by split; [constructor|]|].
  cbn [Api.lstrip list_ascii_of_string].
  destruct (Api.is_space c) eqn:Hc.
  - rewrite IH. split; [by constructor|]. by intros [_ ?]%Forall_cons.
  - split; [by intros ?%rstrip_head|].
    intros [? _]%Forall_cons. congruence.
Qed.

Lemma rejects_iff_blank (query : string) :
  String.eqb query "" || String.eqb (Api.strip query) "" = true <-> blank query.
Proof.
  rewrite orb_true_iff, !String.eqb_eq, <- strip_empty_iff.
  split; [|by right]. by intros [->|?].
Qed.

(** X14: the endpoint's gate, for a query of ASCII characters.  A query
    that is empty or consists of white space only is answered with the 400
    error and leaves the pipeline as it was, not even constructing it; any
    other query is never answered with an HTTP error.  The pipeline is
    constructed at the first such request only: once it exists the
    constructor is not used again, and when the construction fails the
    request fails with that error and the next request will try again. *)
Theorem api_search_gate (round_score round_ratio : Q -> Q) (round_norm : R -> R)
    (_pipeline : option QueryPipeline.t) (construct : result QueryPipeline.t)
    (fs : string -> option string) (query : string) (top_k : Z) :
  ascii_text query ->
  (blank query ->
   Api.search round_score round_ratio round_norm _pipeline construct fs
     query top_k
   = (Api.HTTPException 400 "Query must be non-empty", _pipeline))
  /\ (~ blank query ->
      (forall status_code detail,
          (Api.search round_score round_ratio round_norm _pipeline construct
             fs query top_k).1
          <> Api.HTTPException status_code detail)
      /\ (forall p, _pipeline = Some p ->
            (forall construct',
                Api.search round_score round_ratio round_norm _pipeline
                  construct fs query top_k
                = Api.search round_score round_ratio round_norm _pipeline
                    construct' fs query top_k)
            /\ (Api.search round_score round_ratio round_norm _pipeline
                  construct fs query top_k).2 = Some p)
      /\ (forall e, _pipeline = None -> construct = Raise e ->
            Api.search round_score round_ratio round_norm _pipeline construct
              fs query top_k
            = (Api.Failed e, None))
      /\ (forall p, _pipeline = None -> construct = Ok p ->
            (Api.search round_score round_ratio round_norm _pipeline construct
               fs query top_k).2 = Some p)).
Proof.
  intros _. unfold Api.search. split.
  - intros Hb%rejects_iff_blank. by rewrite Hb.
  - intros Hnb.
    assert (String.eqb query "" || String.eqb (Api.strip query) "" = false)
      as ->.
    { apply not_true_is_false. by rewrite rejects_iff_blank. }
    split_and!.
    + intros status_code detail.
      destruct (Api.get_pipeline _ _) as [[p st]|]; [|done].
      by destruct (QueryPipeline.query _ _ _ _ _).
    + intros p ->. simpl. split; [done|].
      by destruct (QueryPipeline.query _ _ _ _ _).
    + by intros e -> ->.
    + intros p -> ->. simpl.
      by destruct (QueryPipeline.query _ _ _ _ _).
Qed.

Lemma api_search_gate_witness :
  ascii_text "  " /\ blank "  "
  /\ Api.search (fun q => q) (fun q => q) (fun r => r) None
       (Raise (RuntimeError "unused")) Demo.fs "  " 5
     = (Api.HTTPException 400 "Query must be non-empty", None).
Proof.
  assert (ascii_text "  ") as Ha by (repeat constructor).
  assert (blank "  ") as Hb by (repeat constructor).
  split; [exact Ha|]. split; [exact Hb|].
  apply (proj1 (api_search_gate (fun q => q) (fun q => q) (fun r => r) None
                  (Raise (RuntimeError "unused")) Demo.fs "  " 5 Ha) Hb).
Defined.

(** X15: the endpoint's results.  For a query that is not blank and a
    pipeline that answers, the response has one result per pipeline item,
    in order, with its doc_id, score and snippet, and the explanation of
    the query against the document's text; when the document's file is
    missing the result is still there, its preview is the placeholder and
    its explanation is the semantic one without keywords. *)
Theorem api_search_results (round_score round_ratio : Q -> Q)
    (round_norm : R -> R) (p : QueryPipeline.t) (construct : result QueryPipeline.t)
    (fs : string -> option string) (query : string) (top_k : Z)
    (items : list QueryPipeline.Item) :
  ~ blank query ->
  QueryPipeline.query round_score p fs query top_k = Ok items ->
  exists results,
    Api.search round_score round_ratio round_norm (Some p) construct fs
      query top_k = (Api.Results results, Some p)
    /\ Forall2
         (fun item r =>
            Api.a_doc_id r = QueryPipeline.q_doc_id item
            /\ Api.a_score r = QueryPipeline.q_score item
            /\ Api.a_preview r = QueryPipeline.q_snippet item
            /\ match fs (QueryPipeline.q_path item) with
               | Some text =>
                   Api.a_explanation r
                   = Explainer.explain_match round_ratio round_norm query text
               | None =>
                   Api.a_preview r = "[File not found]"
                   /\ Explainer.e_overlap_keywords (Api.a_explanation r) = []
                   /\ Explainer.e_why_matched (Api.a_explanation r)
                      = Explainer.SEMANTIC_ONLY
               end) items results.
Proof.
  intros Hnb Hq. unfold Api.search.
  assert (String.eqb query "" || String.eqb (Api.strip query) "" = false)
    as ->.
  { apply not_true_is_false. by rewrite rejects_iff_blank. }
  simpl. rewrite Hq. eexists. split; [done|].
  apply Forall2_fmap_r, Forall_Forall2_diag, Forall_forall.
  intros item Hin. simpl. split_and!; try done.
  destruct (fs (QueryPipeline.q_path item)) as [text|] eqn:Hfs; simpl; [done|].
  split_and!.
  - unfold QueryPipeline.query in Hq.
    destruct (SearchEngine.search _ _ _) as [rs|]; [|done].
    simpl in Hq. injection Hq as <-.
    apply list_elem_of_fmap in Hin as (r & -> & _). simpl in *.
    unfold QueryPipeline.snippet_of. by rewrite Hfs.
  - apply explain_match_empty_doc.
  - apply explain_match_empty_doc.
Qed.

Lemma api_search_results_witness :
  exists results,
    Api.search (fun q => q) (fun q => q) (fun r => r)
      (Some {| QueryPipeline.search_engine := Demo.loaded_engine;
               QueryPipeline.metadata := Demo.corpus |})
      (Raise (RuntimeError "unused")) (fun _ => None) "rice" 1
    = (Api.Results results,
       Some {| QueryPipeline.search_engine := Demo.loaded_engine;
               QueryPipeline.metadata := Demo.corpus |})
    /\ length results = 1%nat.
Proof.
  assert (~ blank "rice") as Hnb.
  { intros [H _]%Forall_cons. discriminate H. }
  destruct (api_search_results (fun q => q) (fun q => q) (fun r => r)
              {| QueryPipeline.search_engine := Demo.loaded_engine;
                 QueryPipeline.metadata := Demo.corpus |}
              (Raise (RuntimeError "unused")) (fun _ => None) "rice" 1
              [ {| QueryPipeline.q_doc_id := "doc_001";
                   QueryPipeline.q_score := 6;
                   QueryPipeline.q_path := "data/docs/doc_001.txt";
                   QueryPipeline.q_snippet := "[File not found]" |} ]
              Hnb)
    as (results & Hs & Hall).
  - by vm_compute.
  - exists results. split; [exact Hs|].
    apply Forall2_length in Hall. by rewrite <- Hall.
Defined.

End ApiMore.

(** * More on the ranker *)

Section RankerMore.
Import Ranker.

Lemma sorted_score_ge (results : list Candidate) :
  StronglySorted (fun a b => score_ge a b = true) (sorted score_ge results).
Proof. apply sorted_StronglySorted; [apply score_ge_total|apply score_ge_trans]. Qed.

(** X16: [rerank] puts a candidate list in canonical form.  Reranking its
    own result again with the same non-negative [top_k] changes nothing;
    a [top_k] of at least the number of candidates returns them all; and
    when different candidates always have different scores the result
    does not depend on the order in which the candidates are given. *)
Theorem rerank_canonical (results : list Candidate) (top_k : Z) :
  (0 <= top_k -> rerank (rerank results top_k) top_k = rerank results top_k)
  /\ (Z.of_nat (length results) <= top_k -> rerank results top_k ≡ₚ results)
  /\ (forall results',
        results' ≡ₚ results ->
        (forall a b, a ∈ results -> b ∈ results ->
                     (r_score a == r_score b)%Q -> a = b) ->
        rerank results' top_k = rerank results top_k).
Proof.
  split_and!.
  - intros Hk. unfold rerank at 1.
    destruct (rerank_prefix results top_k) as [rest Hrest].
    rewrite sorted_fixpoint.
    + unfold rerank. rewrite !slice_to_nonneg by done. apply take_idemp.
    + apply (StronglySorted_prefix _ _ rest). rewrite <- Hrest.
      apply sorted_score_ge.
  - intros Hk. unfold rerank. rewrite slice_to_nonneg by lia.
    rewrite take_ge by (rewrite sorted_length; lia). apply sorted_perm.
  - intros results' Hperm Hdistinct. unfold rerank. f_equal.
    apply (StronglySorted_unique_strong (fun a b => score_ge a b = true)).
    + intros a b Ha Hb Hab Hba.
      rewrite sorted_perm in Ha, Hb. rewrite Hperm in Ha.
      apply Hdistinct; [done|done|].
      unfold score_ge in Hab, Hba. apply Qle_bool_iff in Hab, Hba.
      by apply Qle_antisym.
    + apply sorted_score_ge.
    + apply sorted_score_ge.
    + by rewrite !sorted_perm.
Qed.

Lemma rerank_canonical_witness :
  0 <= 2
  /\ rerank (rerank Demo.three_candidates 2) 2 = rerank Demo.three_candidates 2.
Proof.
  split; [lia|].
  apply (proj1 (rerank_canonical Demo.three_candidates 2)). lia.
Defined.

End RankerMore.

(** * More on the explainer *)

Section TokenMore.
Import Explainer.

Lemma lower_char_idemp (c : ascii) : lower_char (lower_char c) = lower_char c.
Proof. destruct c as [[] [] [] [] [] [] [] []]; reflexivity. Qed.

Lemma list_ascii_app (s t : string) :
  list_ascii_of_string (s +:+ t)
  = list_ascii_of_string s ++ list_ascii_of_string t.
Proof. induction s as [|c s IH]; simpl; [done|]. by rewrite IH. Qed.

Lemma lower_chars (s : string) :
  Forall (fun c => lower_char c = c) (list_ascii_of_string (lower s)).
Proof.
  induction s as [|c s IH]; simpl; constructor; [|done].
  apply lower_char_idemp.
Qed.

Lemma ratio_one_iff (a b : nat) :
  (0 < b)%nat ->
  (inject_Z (Z.of_nat a) / inject_Z (Z.of_nat b) == 1)%Q <-> a = b.
Proof.
  intros Hb.
  assert (~ inject_Z (Z.of_nat b) == 0)%Q as Hnz.
  { intros H. apply (inject_Z_injective (Z.of_nat b) 0) in H. lia. }
  split.
  - intros H.
    assert (inject_Z (Z.of_nat a) == inject_Z (Z.of_nat b))%Q as H'.
    { rewrite <- (Qmult_1_l (inject_Z (Z.of_nat b))), <- H.
      unfold Qdiv. rewrite <- Qmult_assoc, (Qmult_comm (/ _)).
      rewrite Qmult_inv_r by done. by rewrite Qmult_1_r. }
    apply (inject_Z_injective (Z.of_nat a) (Z.of_nat b)) in H'.
    by apply Nat2Z.inj.
  - intros ->. unfold Qdiv. by apply Qmult_inv_r.
Qed.

Lemma ratio_zero_iff (a b : nat) :
  (0 < b)%nat ->
  (inject_Z (Z.of_nat a) / inject_Z (Z.of_nat b) == 0)%Q <-> a = 0%nat.
Proof.
  intros Hb.
  assert (~ inject_Z (Z.of_nat b) == 0)%Q as Hnz.
  { intros H. apply (inject_Z_injective (Z.of_nat b) 0) in H. lia. }
  split.
  - intros H.
    assert (inject_Z (Z.of_nat a) == 0)%Q as H'.
    { rewrite <- (Qmult_0_l (inject_Z (Z.of_nat b))), <- H.
      unfold Qdiv. rewrite <- Qmult_assoc, (Qmult_comm (/ _)).
      rewrite Qmult_inv_r by done. by rewrite Qmult_1_r. }
    apply (inject_Z_injective (Z.of_nat a) 0) in H'. lia.
  - intros ->. simpl. unfold Qdiv. apply Qmult_0_l.
Qed.

(** X18: the extremes of the ratio.  For a query with at least one
    keyword, the overlap ratio is 1 exactly when every keyword of the
    query is a keyword of the document, and 0 exactly when none is; it
    does not depend on the limit [top_n], which only shortens the list. *)
Theorem overlap_ratio_extremes (query doc_text : string) (top_n : Z) :
  extract_keywords query true <> [] ->
  let q := extract_keywords query true in
  let d := extract_keywords doc_text true in
  let ratio := (keyword_overlap query doc_text top_n).2 in
  ((ratio == 1)%Q <-> forall t, t ∈ q -> t ∈ d)
  /\ ((ratio == 0)%Q <-> forall t, t ∈ q -> t ∉ d)
  /\ ratio = (keyword_overlap query doc_text default_top_n).2.
Proof.
  intros Hq q d ratio. subst ratio. unfold keyword_overlap. fold q. fold d.
  destruct q as [|t0 q'] eqn:Heq; [done|]. cbv zeta. cbn [snd].
  set (q_set := list_to_set (t0 :: q') : gset string).
  set (d_set := list_to_set d : gset string).
  assert (0 < size q_set)%nat as Hpos.
  { assert (size q_set <> 0%nat); [|lia].
    apply size_non_empty_iff. intros Hempty.
    apply (not_elem_of_empty (C:=gset string) t0). rewrite <- Hempty.
    apply elem_of_list_to_set. by left. }
  replace (Nat.max 1 (size q_set)) with (size q_set) by lia.
  assert (forall t, t ∈ t0 :: q' <-> t ∈ q_set) as Hqs
    by (intros t; subst q_set; by rewrite elem_of_list_to_set).
  assert (forall t, t ∈ d <-> t ∈ d_set) as Hds
    by (intros t; subst d_set; by rewrite elem_of_list_to_set).
  split_and!; [| |done].
  - rewrite ratio_one_iff by done. split.
    + intros Hsize t Ht%Hqs. apply Hds.
      assert (q_set ∩ d_set = q_set) as Hi.
      { apply set_subseteq_size_eq; [apply intersection_subseteq_l|lia]. }
      rewrite <- Hi in Ht. by apply elem_of_intersection in Ht as [_ ?].
    + intros Hall. f_equal. apply subseteq_intersection_1_L.
      intros t Ht. apply Hds, Hall, Hqs, Ht.
  - rewrite ratio_zero_iff by done. rewrite size_empty_iff. split.
    + intros Hempty t Ht%Hqs Hd%Hds.
      apply (not_elem_of_empty (C:=gset string) t). rewrite <- Hempty.
      by apply elem_of_intersection.
    + intros Hnone. apply elem_of_equiv_empty. intros t Ht.
      apply elem_of_intersection in Ht as [Ht1%Hqs Ht2%Hds].
      by apply (Hnone t).
Qed.

Lemma overlap_ratio_extremes_witness :
  extract_keywords "quantum physics" true <> []
  /\ ((keyword_overlap "quantum physics" "physics of the quantum world" 1).2
      == 1)%Q.
Proof.
  assert (extract_keywords "quantum physics" true <> []) as Hq by discriminate.
  split; [exact Hq|].
  apply (proj1 (overlap_ratio_extremes "quantum physics"
                  "physics of the quantum world" 1 Hq)).
  intros t Ht.
  assert (extract_keywords "quantum physics" true = ["quantum"; "physics"])
    as Hqk by reflexivity.
  assert (extract_keywords "physics of the quantum world" true
          = ["physics"; "quantum"; "world"]) as Hdk by reflexivity.
  rewrite Hqk in Ht. rewrite Hdk.
  apply elem_of_cons in Ht as [->|Ht].
  - apply elem_of_cons. right. apply elem_of_cons. by left.
  - apply list_elem_of_singleton in Ht as ->. apply elem_of_cons. by left.
Defined.

End TokenMore.

(** * Construction of the provider *)

Section InitFacts.
Import Embedder.
Context {M : Type} (w : World M).

Lemma range_nil (a c : Z) : c <= a -> range a c = [].
Proof. intros H. unfold range. by replace (Z.to_nat (c - a)) with 0%nat by lia. Qed.

Lemma range_cons (a c : Z) : a < c -> range a c = a :: range (a + 1) c.
Proof.
  intros H. unfold range.
  replace (Z.to_nat (c - a)) with (S (Z.to_nat (c - (a + 1)))) by lia.
  simpl. f_equal; [lia|].
  rewrite <- fmap_S_seq, <- list_fmap_compose.
  apply list_fmap_ext. intros i x _. simpl. lia.
Qed.

Lemma range_snoc (a c : Z) : a <= c -> range a (c + 1) = range a c ++ [c].
Proof.
  intros H. unfold range.
  replace (Z.to_nat (c + 1 - a)) with (Z.to_nat (c - a) + 1)%nat by lia.
  rewrite seq_app, fmap_app. simpl. do 2 f_equal. lia.
Qed.

Lemma range_app (a b c : Z) :
  a <= b <= c -> range a c = range a b ++ range b c.
Proof.
  intros [Hab Hbc].
  remember (Z.to_nat (c - b)) as n eqn:Hn. revert c Hbc Hn.
  induction n as [|n IH]; intros c Hbc Hn.
  - assert (c = b) as -> by lia. by rewrite (range_nil b b), app_nil_r by lia.
  - replace c with ((c - 1) + 1) by lia.
    rewrite (range_snoc a), (range_snoc b) by lia.
    rewrite (IH (c - 1)) by lia. by rewrite app_assoc.
Qed.

Lemma elem_of_range (a c x : Z) : x ∈ range a c <-> a <= x < c.
Proof.
  unfold range. rewrite list_elem_of_fmap. split.
  - intros (i & -> & Hi). apply elem_of_seq in Hi. lia.
  - intros Hx. exists (Z.to_nat (x - a)). split; [lia|].
    apply elem_of_seq. lia.
Qed.

Lemma sleep_nonneg (seconds : Z) :
  0 <= seconds -> sleep seconds = (Ok tt, [Sleep seconds]).
Proof.
  intros H. unfold sleep, io_bind. simpl.
  by replace (seconds <? 0) with false by lia.
Qed.

Lemma sleep_negative (seconds : Z) :
  seconds < 0 ->
  sleep seconds
  = (Raise (ValueError "sleep length must be non-negative"), [Sleep seconds]).
Proof.
  intros H. unfold sleep, io_bind. simpl.
  by replace (seconds <? 0) with true by lia.
Qed.

(** A run of failing attempts, none of them the last, costs one load and
    one wait each. *)
Lemma load_by_name_failed (retries retry_delay : Z) (l1 l2 : list Z) :
  0 <= retry_delay ->
  Forall (fun j => by_name w j = RaisesException /\ j <> retries) l1 ->
  load_by_name w retries retry_delay (l1 ++ l2)
  = ((load_by_name w retries retry_delay l2).1,
     (l1 ≫= (fun j => [LoadByName j; Sleep retry_delay]))
     ++ (load_by_name w retries retry_delay l2).2).
Proof.
  intros Hd Hl1. induction Hl1 as [|j l1 [Hj Hne] _ IH].
  - simpl. by destruct (load_by_name w retries retry_delay l2).
  - simpl. rewrite Hj. replace (j =? retries) with false by lia.
    rewrite sleep_nonneg by done. rewrite IH. unfold io_bind. simpl. done.
Qed.

(** What the loop can end in and which calls it makes. *)
Lemma load_by_name_inv (retries retry_delay : Z) (attempts : list Z) :
  0 <= retry_delay ->
  (exists model,
      (load_by_name w retries retry_delay attempts).1 = Ok model
      /\ forall m, model = Some m ->
           exists k, k ∈ attempts /\ by_name w k = Loaded m)
  /\ Forall (fun c => (exists k, c = LoadByName k /\ k ∈ attempts)
                      \/ c = Sleep retry_delay)
            (load_by_name w retries retry_delay attempts).2.
Proof.
  intros Hd. induction attempts as [|j rest IH]; simpl.
  - split; [|constructor]. exists None. split; [done|]. by intros m.
  - destruct IH as [(model & Hr & Hm) Hcs].
    destruct (by_name w j) as [m| |] eqn:Hj; simpl.
    + split.
      * exists (Some m). split; [done|]. intros m' [= <-]. exists j.
        split; [by left|done].
      * constructor; [|constructor]. left. exists j. split; [done|by left].
    + split.
      * exists None. split; [done|]. by intros m.
      * constructor; [|constructor]. left. exists j. split; [done|by left].
    + assert ((if j =? retries then ret tt else sleep retry_delay)
              = (Ok tt, if j =? retries then [] else [Sleep retry_delay]))
        as Hwait.
      { destruct (j =? retries); [done|by apply sleep_nonneg]. }
      rewrite Hwait. unfold io_bind. simpl. rewrite Hr. simpl. split.
      * exists model. split; [done|]. intros m Hmodel.
        destruct (Hm m Hmodel) as (k & Hk & Hkm). exists k.
        split; [by right|done].
      * constructor; [left; exists j; split; [done|by left]|].
        apply Forall_app. split.
        -- destruct (j =? retries); constructor; [by right|constructor].
        -- eapply Forall_impl; [exact Hcs|]. simpl.
           intros c [(k & -> & Hk)| ->]; [|by right].
           left. exists k. split; [done|by right].
Qed.

(** X19: the retry schedule.  When the attempts before the [k]-th all
    fail with an exception other than [TypeError]: each of them is followed
    by one wait of [retry_delay] seconds, and the [k]-th attempt decides.
    A loaded model is returned at once, without a wait after it and without
    touching the fallback; a [TypeError] gives up the remaining attempts and
    goes to the fallback; a failure of the last attempt goes to the
    fallback without waiting. *)
Theorem init_schedule (retries retry_delay k : Z) :
  0 <= retry_delay ->
  1 <= k <= retries ->
  (forall j, 1 <= j < k -> by_name w j = RaisesException) ->
  match by_name w k with
  | Loaded model =>
      init w retries retry_delay
      = (Ok model, failed_attempts retry_delay k ++ [LoadByName k])
  | RaisesTypeError =>
      init w retries retry_delay
      = ((fallback w).1,
         failed_attempts retry_delay k ++ LoadByName k :: (fallback w).2)
  | RaisesException =>
      k = retries ->
      init w retries retry_delay
      = ((fallback w).1,
         failed_attempts retry_delay k ++ LoadByName k :: (fallback w).2)
  end.
Proof.
  intros Hd Hk Hfail. unfold init, failed_attempts.
  rewrite (range_app 1 k (retries + 1)) by lia.
  rewrite (load_by_name_failed retries retry_delay (range 1 k)); [|done|].
  2:{ apply Forall_forall. intros j Hj%elem_of_range.
      split; [apply Hfail; lia|lia]. }
  rewrite (range_cons k) by lia.
  destruct (by_name w k) as [m| |] eqn:Hbk.
  - simpl. rewrite Hbk. unfold io_bind. simpl. by rewrite app_nil_r.
  - simpl. rewrite Hbk. unfold io_bind. simpl. by rewrite <- app_assoc.
  - intros ->. rewrite (range_nil (retries + 1)) by lia.
    simpl. rewrite Hbk. rewrite Z.eqb_refl. unfold io_bind. simpl.
    by rewrite <- app_assoc.
Qed.

Lemma fallback_cases :
  fallback w
  = if hub_importable w then
      if local_dir_ready w then
        (match from_local w with
         | Some model => Ok model
         | None => Raise (RuntimeError
                     "Failed to initialize SentenceTransformer from local_folder")
         end, [ImportHub; LoadLocal])
      else if download_ok w then
        (match from_local w with
         | Some model => Ok model
         | None => Raise (RuntimeError
                     "Failed to initialize SentenceTransformer from local_folder")
         end, [ImportHub; SnapshotDownload; LoadLocal])
      else
        (Raise (RuntimeError
                  "Failed to download model via huggingface_hub.snapshot_download"),
         [ImportHub; SnapshotDownload])
    else
      (Raise (RuntimeError
                "huggingface_hub is required for fallback download. Install it with: pip install huggingface_hub"),
       [ImportHub]).
Proof.
  unfold fallback.
  destruct (hub_importable w), (local_dir_ready w), (download_ok w),
    (from_local w); reflexivity.
Qed.

(** X20: what the constructor can end in.  With a non-negative
    [retry_delay] it raises nothing but one of its three [RuntimeError]s,
    each after the call that failed; a model it returns was loaded by name
    in one of the attempts [1 .. retries], and then the fallback was not
    touched, or was loaded from the local folder; the download is only
    started when the local folder is not ready; the attempts by name are
    numbered within [1 .. retries], and for [retries <= 0] there is none.
    With a negative [retry_delay] a first attempt that fails, when it is
    not the last, ends the constructor with the [ValueError] of
    [time.sleep]. *)
Theorem init_outcomes (retries retry_delay : Z) :
  let r := (init w retries retry_delay).1 in
  let cs := (init w retries retry_delay).2 in
  (0 <= retry_delay ->
   (forall e, r = Raise e ->
      (e = RuntimeError
             "huggingface_hub is required for fallback download. Install it with: pip install huggingface_hub"
       /\ hub_importable w = false /\ last cs = Some ImportHub)
      \/ (e = RuntimeError
                "Failed to download model via huggingface_hub.snapshot_download"
          /\ local_dir_ready w = false /\ download_ok w = false
          /\ last cs = Some SnapshotDownload)
      \/ (e = RuntimeError
                "Failed to initialize SentenceTransformer from local_folder"
          /\ from_local w = None /\ last cs = Some LoadLocal))
   /\ (forall m, r = Ok m ->
         (exists k, 1 <= k <= retries /\ by_name w k = Loaded m
                    /\ Forall (fun c => ~ fallback_call c) cs)
         \/ (from_local w = Some m /\ hub_importable w = true
             /\ (local_dir_ready w = true \/ download_ok w = true)
             /\ last cs = Some LoadLocal))
   /\ (SnapshotDownload ∈ cs -> local_dir_ready w = false)
   /\ (forall k, LoadByName k ∈ cs -> 1 <= k <= retries))
  /\ (retries <= 0 -> init w retries retry_delay = fallback w)
  /\ (retry_delay < 0 -> 2 <= retries -> by_name w 1 = RaisesException ->
      init w retries retry_delay
      = (Raise (ValueError "sleep length must be non-negative"),
         [LoadByName 1; Sleep retry_delay])).
Proof.
  cbv zeta. split_and!.
  - intros Hd.
    destruct (load_by_name_inv retries retry_delay (range 1 (retries + 1)) Hd)
      as [(model & Hr & Hm) Hcs].
    unfold init, io_bind. rewrite Hr.
    set (cl := (load_by_name w retries retry_delay (range 1 (retries + 1))).2)
      in *. clearbody cl.
    assert (forall c, c ∈ cl -> ~ fallback_call c) as Hnofb.
    { intros c Hc. rewrite Forall_forall in Hcs.
      destruct (Hcs c Hc) as [(k & -> & _)| ->];
        intros [?|[?|?]]; discriminate. }
    assert (forall k, LoadByName k ∈ cl -> 1 <= k <= retries) as Hnum.
    { intros k Hc. rewrite Forall_forall in Hcs.
      destruct (Hcs _ Hc) as [(k' & [= <-] & Hk)|?]; [|discriminate].
      apply elem_of_range in Hk. lia. }
    destruct model as [m|]; cbv beta iota.
    + simpl. rewrite app_nil_r. split_and!.
      * intros e [=].
      * intros m' [= <-]. left. destruct (Hm m eq_refl) as (k & Hk & Hkm).
        exists k. apply elem_of_range in Hk. split; [lia|]. split; [done|].
        by apply Forall_forall.
      * intros Hc. exfalso. apply (Hnofb _ Hc). right. by left.
      * done.
    + rewrite fallback_cases.
      destruct (hub_importable w) eqn:Hhub, (local_dir_ready w) eqn:Hdir,
        (download_ok w) eqn:Hdl, (from_local w) as [m|] eqn:Hloc; simpl;
        rewrite ?last_app; simpl.
      all: split_and!;
        [ intros e [=]; subst; auto 10
        | intros m' [=]; subst; auto 10
        | intros [Hc|Hc]%elem_of_app;
          [exfalso; apply (Hnofb _ Hc); right; by left|];
          try done;
          repeat (apply elem_of_cons in Hc as [Hc|Hc]; [discriminate|]);
          by apply elem_of_nil in Hc
        | intros k [Hc|Hc]%elem_of_app; [by apply Hnum|];
          repeat (apply elem_of_cons in Hc as [Hc|Hc]; [discriminate|]);
          by apply elem_of_nil in Hc ].
  - intros Hr. unfold init. rewrite range_nil by lia.
    unfold load_by_name, io_bind, ret. cbn [fst snd app].
    by destruct (fallback w).
  - intros Hd Hr H1. unfold init. rewrite range_cons by lia.
    cbn [load_by_name]. rewrite H1.
    replace (1 =? retries) with false by lia.
    by rewrite sleep_negative.
Qed.

End InitFacts.

Section InitExamples.
Import Embedder.

Lemma init_schedule_witness :
  0 <= 5 /\ 1 <= 3 <= 3
  /\ init Demo.flaky_hub 3 5
     = (Ok "all-MiniLM-L6-v2",
        [LoadByName 1; Sleep 5; LoadByName 2; Sleep 5; LoadByName 3]).
Proof.
  assert (0 <= 5) as Hd by lia. assert (1 <= 3 <= 3) as Hk by lia.
  split; [exact Hd|]. split; [exact Hk|].
  assert (forall j, 1 <= j < 3 ->
            by_name Demo.flaky_hub j = @RaisesException string) as Hfail.
  { intros j Hj. simpl. by replace (j =? 3) with false by lia. }
  exact (init_schedule Demo.flaky_hub 3 5 3 Hd Hk Hfail).
Defined.

Lemma init_outcomes_witness :
  -1 < 0 /\ 2 <= 3
  /\ init Demo.flaky_hub 3 (-1)
     = (Raise (ValueError "sleep length must be non-negative"),
        [LoadByName 1; Sleep (-1)]).
Proof.
  assert (-1 < 0) as Hd by lia. assert (2 <= 3) as Hr by lia.
  split; [exact Hd|]. split; [exact Hr|].
  exact (proj2 (proj2 (init_outcomes Demo.flaky_hub 3 (-1))) Hd Hr eq_refl).
Defined.

End InitExamples.

(** * Preprocessing *)

Section TagFacts.
Import Preprocess.

Lemma to_gt_cons_None (c : ascii) (s : string) :
  to_gt (String c s) = None <-> Ascii.eqb c ">" = false /\ to_gt s = None.
Proof.
  simpl. destruct (Ascii.eqb c ">"); [by split; [|intros []]|].
  destruct (to_gt s); simpl; by split; [|intros []].
Qed.

Lemma match_tag_cons (c0 c1 : ascii) (s : string) :
  match_tag (String c0 (String c1 s)) = None
  <-> Ascii.eqb c0 "<" && negb (Ascii.eqb c1 ">") = false \/ to_gt s = None.
Proof.
  unfold match_tag.
  destruct (Ascii.eqb c0 "<" && negb (Ascii.eqb c1 ">")).
  - destruct (to_gt s); simpl.
    + split; [done|]. by intros [?|?].
    + split; [by right|done].
  - split; [by left|done].
Qed.

Lemma match_tag_other (c : ascii) (s : string) :
  Ascii.eqb c "<" = false -> match_tag (String c s) = None.
Proof. intros Hc. destruct s; simpl; [done|]. by rewrite Hc. Qed.

Lemma to_gt_sub_tags (n : nat) (s : string) :
  to_gt s = None -> to_gt (sub_tags n s) = None.
Proof.
  revert n. induction s as [|c s IH]; intros n; [done|].
  intros [Hc Hs]%to_gt_cons_None.
  destruct n as [|n]; cbn [sub_tags]; [|by apply IH].
  destruct (match_tag (String c s)) as [len|].
  - apply to_gt_cons_None. split; [done|by apply IH].
  - apply to_gt_cons_None. split; [done|by apply IH].
Qed.

Lemma sub_tags_gt (s : string) :
  sub_tags 0 (String ">" s) = String ">" (sub_tags 0 s).
Proof. cbn [sub_tags]. by rewrite match_tag_other. Qed.

Lemma match_tag_sub_tags (c : ascii) (s : string) :
  match_tag (String c s) = None ->
  match_tag (String c (sub_tags 0 s)) = None.
Proof.
  destruct s as [|c1 s]; [done|].
  intros [Hc|Hs]%match_tag_cons.
  - apply andb_false_iff in Hc as [Hc|Hc]; [by apply match_tag_other|].
    apply negb_false_iff, Ascii.eqb_eq in Hc as ->.
    rewrite sub_tags_gt. apply match_tag_cons. left.
    by rewrite andb_false_r.
  - cbn [sub_tags].
    destruct (match_tag (String c1 s)); apply match_tag_cons; right;
      by apply to_gt_sub_tags.
Qed.

Lemma tag_free_sub_tags (n : nat) (s : string) : tag_free (sub_tags n s).
Proof.
  revert n. induction s as [|c s IH]; intros n; [done|].
  destruct n as [|n]; cbn [sub_tags]; [|by apply IH].
  destruct (match_tag (String c s)) as [len|] eqn:Hm.
  - split; [by apply match_tag_other|apply IH].
  - split; [by apply match_tag_sub_tags|apply IH].
Qed.

Lemma sub_tags_tag_free (s : string) : tag_free s -> sub_tags 0 s = s.
Proof.
  induction s as [|c s IH]; [done|]. intros [Hm Hs].
  cbn [sub_tags]. rewrite Hm. by rewrite IH.
Qed.

Lemma sub_tags_length (n : nat) (s : string) :
  (String.length (sub_tags n s) <= String.length s)%nat.
Proof.
  revert n. induction s as [|c s IH]; intros n; [done|].
  destruct n as [|n]; cbn [sub_tags].
  - destruct (match_tag (String c s)) as [len|]; simpl.
    + specialize (IH (len - 1)%nat). lia.
    + specialize (IH 0%nat). lia.
  - specialize (IH n). simpl. lia.
Qed.

(** X21: [strip_html] leaves no tag behind: in its result the pattern
    matches nowhere, so stripping twice is stripping once; it returns
    exactly the tag-free texts unchanged, and never makes a text longer. *)
Theorem strip_html_tag_free (text : string) :
  tag_free (strip_html text)
  /\ (tag_free text <-> strip_html text = text)
  /\ strip_html (strip_html text) = strip_html text
  /\ (String.length (strip_html text) <= String.length text)%nat.
Proof.
  unfold strip_html. split_and!.
  - apply tag_free_sub_tags.
  - split; [apply sub_tags_tag_free|].
    intros <-. apply tag_free_sub_tags.
  - apply sub_tags_tag_free, tag_free_sub_tags.
  - apply sub_tags_length.
Qed.

End TagFacts.

Section CleanFacts.
Import Preprocess.

(** *** Lower-casing *)

Lemma lower_char_eqb_gt (c : ascii) :
  Ascii.eqb (Explainer.lower_char c) ">" = Ascii.eqb c ">".
Proof. destruct c as [[] [] [] [] [] [] [] []]; reflexivity. Qed.

Lemma lower_char_eqb_lt (c : ascii) :
  Ascii.eqb (Explainer.lower_char c) "<" = Ascii.eqb c "<".
Proof. destruct c as [[] [] [] [] [] [] [] []]; reflexivity. Qed.

Lemma lower_char_space (c : ascii) :
  Api.is_space (Explainer.lower_char c) = Api.is_space c.
Proof. destruct c as [[] [] [] [] [] [] [] []]; reflexivity. Qed.

Lemma to_gt_lower (s : string) : to_gt (Explainer.lower s) = to_gt s.
Proof.
  induction s as [|c s IH]; [done|]. simpl.
  by rewrite lower_char_eqb_gt, IH.
Qed.

Lemma match_tag_lower (s : string) :
  match_tag (Explainer.lower s) = match_tag s.
Proof.
  destruct s as [|c0 [|c1 s]]; [done|done|]. simpl.
  by rewrite lower_char_eqb_lt, lower_char_eqb_gt, to_gt_lower.
Qed.

Lemma tag_free_lower (s : string) : tag_free s -> tag_free (Explainer.lower s).
Proof.
  induction s as [|c s IH]; [done|]. intros [Hm Hs].
  split; [|by apply IH].
  change (match_tag (Explainer.lower (String c s)) = None).
  by rewrite match_tag_lower.
Qed.

Lemma lower_fixed (s : string) :
  Forall (fun c => Explainer.lower_char c = c) (list_ascii_of_string s) -> Explainer.lower s = s.
Proof.
  induction s as [|c s IH]; [done|]. intros [Hc Hs]%Forall_cons.
  simpl. by rewrite Hc, IH.
Qed.

Lemma blank_lower (s : string) : blank (Explainer.lower s) <-> blank s.
Proof.
  unfold blank. induction s as [|c s IH]; [done|]. simpl.
  rewrite !Forall_cons, IH, lower_char_space. done.
Qed.

(** *** Collapsing white space *)

Lemma space_not_gt (c : ascii) :
  Api.is_space c = true -> Ascii.eqb c ">" = false.
Proof. destruct c as [[] [] [] [] [] [] [] []]; by compute. Qed.

Lemma space_not_lt (c : ascii) :
  Api.is_space c = true -> Ascii.eqb c "<" = false.
Proof. destruct c as [[] [] [] [] [] [] [] []]; by compute. Qed.

Lemma to_gt_collapse (b : bool) (s : string) :
  to_gt s = None -> to_gt (collapse b s) = None.
Proof.
  revert b. induction s as [|c s IH]; intros b; [done|].
  intros [Hc Hs]%to_gt_cons_None. cbn [collapse].
  destruct (Api.is_space c); [destruct b|].
  - by apply IH.
  - apply to_gt_cons_None. split; [done|by apply IH].
  - apply to_gt_cons_None. split; [done|by apply IH].
Qed.

Lemma match_tag_collapse (c : ascii) (s : string) :
  match_tag (String c s) = None ->
  match_tag (String c (collapse false s)) = None.
Proof.
  destruct s as [|c1 s]; [done|].
  intros [Hc|Hs]%match_tag_cons.
  - apply andb_false_iff in Hc as [Hc|Hc]; [by apply match_tag_other|].
    apply negb_false_iff, Ascii.eqb_eq in Hc as ->.
    cbn [collapse]. replace (Api.is_space ">") with false by reflexivity.
    apply match_tag_cons. left. by rewrite andb_false_r.
  - cbn [collapse].
    destruct (Api.is_space c1); apply match_tag_cons; right;
      by apply to_gt_collapse.
Qed.

Lemma tag_free_collapse (b : bool) (s : string) :
  tag_free s -> tag_free (collapse b s).
Proof.
  revert b. induction s as [|c s IH]; intros b; [done|]. intros [Hm Hs].
  cbn [collapse]. destruct (Api.is_space c) eqn:Hc; [destruct b|].
  - by apply IH.
  - split; [by apply match_tag_other|by apply IH].
  - split; [by apply match_tag_collapse|by apply IH].
Qed.

Lemma Forall_collapse (P : ascii -> Prop) (b : bool) (s : string) :
  P " "%char -> Forall P (list_ascii_of_string s) -> Forall P (list_ascii_of_string (collapse b s)).
Proof.
  intros Hsp. revert b. induction s as [|c s IH]; intros b; [done|].
  intros [Hc Hs]%Forall_cons. cbn [collapse].
  destruct (Api.is_space c); [destruct b|]; simpl; auto.
Qed.

Lemma spaced_collapse (b : bool) (s : string) : spaced b (collapse b s) = true.
Proof.
  revert b. induction s as [|c s IH]; intros b; [done|].
  cbn [collapse]. destruct (Api.is_space c) eqn:Hc; [destruct b|].
  - apply IH.
  - cbn [spaced]. replace (Api.is_space " ") with true by reflexivity.
    simpl. apply IH.
  - cbn [spaced]. rewrite Hc. apply IH.
Qed.

Lemma spaced_weaken (s : string) : spaced true s = true -> spaced false s = true.
Proof.
  destruct s as [|c s]; [done|]. cbn [spaced].
  destruct (Api.is_space c); [|done]. by rewrite andb_false_r.
Qed.

Lemma collapse_spaced (b : bool) (s : string) :
  spaced b s = true -> collapse b s = s.
Proof.
  revert b. induction s as [|c s IH]; intros b; [done|].
  cbn [spaced collapse]. destruct (Api.is_space c).
  - intros [[Hc Hb%negb_true_iff]%andb_true_iff Hs]%andb_true_iff.
    apply Ascii.eqb_eq in Hc. subst. by rewrite (IH true).
  - intros Hs. by rewrite (IH false).
Qed.

Lemma blank_collapse (b : bool) (s : string) : blank (collapse b s) <-> blank s.
Proof.
  unfold blank. revert b. induction s as [|c s IH]; intros b; [done|].
  cbn [collapse]. destruct (Api.is_space c) eqn:Hc; [destruct b|]; simpl.
  - rewrite IH, Forall_cons. tauto.
  - rewrite !Forall_cons, IH. tauto.
  - rewrite !Forall_cons. rewrite Hc. split; by intros [? _].
Qed.

(** *** Stripping *)

Lemma rstrip_cons (c : ascii) (s : string) :
  Api.rstrip (String c s) = ""
  \/ Api.rstrip (String c s) = String c (Api.rstrip s).
Proof.
  simpl. destruct (Api.rstrip s); [destruct (Api.is_space c)|]; auto.
Qed.

Lemma tag_free_lstrip (s : string) : tag_free s -> tag_free (Api.lstrip s).
Proof.
  induction s as [|c s IH]; [done|]. intros [Hm Hs]. simpl.
  destruct (Api.is_space c); [by apply IH|done].
Qed.

Lemma to_gt_rstrip (s : string) :
  to_gt s = None -> to_gt (Api.rstrip s) = None.
Proof.
  induction s as [|c s IH]; [done|]. intros [Hc Hs]%to_gt_cons_None.
  destruct (rstrip_cons c s) as [->| ->]; [done|].
  apply to_gt_cons_None. auto.
Qed.

Lemma match_tag_rstrip (c : ascii) (s : string) :
  match_tag (String c s) = None ->
  match_tag (String c (Api.rstrip s)) = None.
Proof.
  destruct s as [|c1 s]; [done|].
  intros Hm. destruct (rstrip_cons c1 s) as [->| ->]; [done|].
  apply match_tag_cons in Hm as [Hc|Hs]; apply match_tag_cons; [by left|].
  right. by apply to_gt_rstrip.
Qed.

Lemma tag_free_rstrip (s : string) : tag_free s -> tag_free (Api.rstrip s).
Proof.
  induction s as [|c s IH]; [done|]. intros [Hm Hs].
  destruct (rstrip_cons c s) as [->| ->]; [done|].
  split; [by apply match_tag_rstrip|by apply IH].
Qed.

Lemma Forall_lstrip (P : ascii -> Prop) (s : string) :
  Forall P (list_ascii_of_string s) -> Forall P (list_ascii_of_string (Api.lstrip s)).
Proof.
  induction s as [|c s IH]; [done|]. intros HP. simpl.
  destruct (Api.is_space c); [|done]. apply IH.
  by apply Forall_cons in HP as [_ ?].
Qed.

Lemma Forall_rstrip (P : ascii -> Prop) (s : string) :
  Forall P (list_ascii_of_string s) -> Forall P (list_ascii_of_string (Api.rstrip s)).
Proof.
  induction s as [|c s IH]; [done|]. intros [Hc Hs]%Forall_cons.
  destruct (rstrip_cons c s) as [->| ->]; [constructor|].
  simpl. constructor; auto.
Qed.

Lemma spaced_lstrip (b : bool) (s : string) :
  spaced b s = true -> spaced true (Api.lstrip s) = true.
Proof.
  revert b. induction s as [|c s IH]; intros b; [done|].
  cbn [spaced Api.lstrip]. destruct (Api.is_space c) eqn:Hc.
  - intros [_ Hs]%andb_true_iff. by apply (IH true).
  - intros Hs. cbn [spaced]. by rewrite Hc.
Qed.

Lemma spaced_rstrip (b : bool) (s : string) :
  spaced b s = true -> spaced b (Api.rstrip s) = true.
Proof.
  revert b. induction s as [|c s IH]; intros b; [done|].
  intros Hs. destruct (rstrip_cons c s) as [->| ->]; [done|].
  cbn [spaced] in *. destruct (Api.is_space c).
  - apply andb_true_iff in Hs as [-> Hs]. simpl. by apply IH.
  - by apply IH.
Qed.

Lemma lstrip_spaced (s : string) : spaced true s = true -> Api.lstrip s = s.
Proof.
  destruct s as [|c s]; [done|]. cbn [spaced Api.lstrip].
  destruct (Api.is_space c); [|done]. by rewrite andb_false_r.
Qed.

Lemma ends_in_space_rstrip (s : string) : ends_in_space (Api.rstrip s) = false.
Proof.
  induction s as [|c s IH]; [done|]. simpl.
  destruct (Api.rstrip s) as [|c' rest] eqn:Hr.
  - by destruct (Api.is_space c) eqn:Hc; simpl.
  - done.
Qed.

Lemma rstrip_fixed (s : string) : ends_in_space s = false -> Api.rstrip s = s.
Proof.
  induction s as [|c s IH]; [done|]. destruct s as [|c' s].
  - simpl. by intros ->.
  - intros He. change (ends_in_space (String c' s) = false) in He.
    specialize (IH He).
    change (Api.rstrip (String c (String c' s)))
      with (match Api.rstrip (String c' s) with
            | EmptyString =>
                if Api.is_space c then EmptyString else String c EmptyString
            | rest => String c rest
            end).
    by rewrite IH.
Qed.

(** The three steps after the test for the empty text. *)
Lemma clean_text_steps (text : string) :
  clean_text text
  = Api.strip (collapse false (Explainer.lower (strip_html text))).
Proof.
  unfold clean_text. destruct (String.eqb_spec text "") as [->|_]; done.
Qed.

Lemma clean_text_clean (text : string) : clean (clean_text text).
Proof.
  rewrite clean_text_steps. unfold Api.strip, strip_html. split_and!.
  - apply tag_free_rstrip, tag_free_lstrip, tag_free_collapse, tag_free_lower,
      tag_free_sub_tags.
  - apply Forall_rstrip, Forall_lstrip, Forall_collapse; [done|].
    apply lower_chars.
  - apply spaced_rstrip, (spaced_lstrip false), spaced_collapse.
  - apply ends_in_space_rstrip.
Qed.

Lemma clean_fixed (s : string) : clean s -> clean_text s = s.
Proof.
  intros (Htag & Hlow & Hsp & Hend).
  rewrite clean_text_steps. unfold Api.strip, strip_html.
  rewrite sub_tags_tag_free by done. rewrite lower_fixed by done.
  rewrite collapse_spaced by (by apply spaced_weaken).
  rewrite lstrip_spaced by done. by apply rstrip_fixed.
Qed.

(** X22: [clean_text] normalises an ASCII text.  Its result holds no tag
    and no upper-case letter, its words are separated by single spaces and
    it has no white space at either end; the texts of that form are
    exactly those [clean_text] returns unchanged, so cleaning twice is
    cleaning once; the result is empty exactly when nothing but white
    space is left once the tags are taken out. *)
Theorem clean_text_normalises (text : string) :
  ascii_text text ->
  clean (clean_text text)
  /\ (clean text <-> clean_text text = text)
  /\ clean_text (clean_text text) = clean_text text
  /\ (clean_text text = "" <-> blank (strip_html text)).
Proof.
  intros _. split_and!.
  - apply clean_text_clean.
  - split; [apply clean_fixed|]. intros <-. apply clean_text_clean.
  - apply clean_fixed, clean_text_clean.
  - rewrite clean_text_steps, strip_empty_iff, blank_collapse, blank_lower.
    done.
Qed.

End CleanFacts.

Section SaveFacts.
Import Preprocess.

(** *** File names *)

Lemma pretty_N_go_head (x : N) (s : string) :
  (0 < x)%N ->
  exists c rest, pretty_N_go x s = String c rest /\ c <> "0"%char.
Proof.
  revert s. induction (N.lt_wf_0 x) as [x _ IH]; intros s Hx.
  rewrite pretty_N_go_step by done.
  destruct (decide (x `div` 10 = 0)%N) as [Hdiv|Hdiv].
  - rewrite Hdiv, pretty_N_go_0. eexists _, _. split; [done|].
    assert (x < 10)%N as Hlt by (by apply N.div_small_iff in Hdiv).
    rewrite N.mod_small by done.
    assert (x = 1 \/ x = 2 \/ x = 3 \/ x = 4 \/ x = 5 \/ x = 6
            \/ x = 7 \/ x = 8 \/ x = 9)%N as Hcases by lia.
    by repeat (destruct Hcases as [->|Hcases]); subst.
  - apply IH; [by apply N.div_lt|by apply N.neq_0_lt_0].
Qed.

Lemma pretty_nat_head (n : nat) :
  (0 < n)%nat ->
  exists c rest, pretty n = String c rest /\ c <> "0"%char.
Proof.
  intros Hn. unfold pretty, pretty_nat, pretty, pretty_N.
  destruct (decide (N.of_nat n = 0%N)); [lia|].
  apply pretty_N_go_head. lia.
Qed.

Lemma zeros_app_inj (k1 k2 : nat) (p1 p2 : string) :
  (forall rest, p1 <> String "0" rest) ->
  (forall rest, p2 <> String "0" rest) ->
  string_of_list_ascii (replicate k1 "0"%char) +:+ p1
  = string_of_list_ascii (replicate k2 "0"%char) +:+ p2 ->
  p1 = p2.
Proof.
  intros H1 H2. revert k2.
  induction k1 as [|k1 IH]; intros [|k2]; simpl; intros Heq.
  - done.
  - by destruct (H1 _ Heq).
  - by destruct (H2 _ (eq_sym Heq)).
  - injection Heq as Heq. by apply (IH k2).
Qed.

Lemma format_03d_inj (a b : nat) :
  (0 < a)%nat -> (0 < b)%nat -> format_03d a = format_03d b -> a = b.
Proof.
  intros Ha Hb Heq. unfold format_03d in Heq.
  destruct (pretty_nat_head a Ha) as (ca & ra & Hpa & Hca).
  destruct (pretty_nat_head b Hb) as (cb & rb & Hpb & Hcb).
  apply zeros_app_inj in Heq.
  - by apply (inj pretty).
  - intros rest. rewrite Hpa. by intros [= -> _].
  - intros rest. rewrite Hpb. by intros [= -> _].
Qed.

Lemma string_app_inj_r (x y t : string) : x +:+ t = y +:+ t -> x = y.
Proof.
  intros Heq. apply (f_equal list_ascii_of_string) in Heq.
  rewrite !list_ascii_app in Heq. apply app_inv_tail in Heq.
  rewrite <- (string_of_list_ascii_of_string x),
    <- (string_of_list_ascii_of_string y). by rewrite Heq.
Qed.

Lemma saved_path_inj (a b : nat) : saved_path (S a) = saved_path (S b) -> a = b.
Proof.
  unfold saved_path, doc_path, DATA_DIR. intros Heq.
  cbn [String.append] in Heq. injection Heq as Heq.
  apply string_app_inj_r in Heq.
  apply format_03d_inj in Heq; lia.
Qed.

Lemma save_loop_spec (limit : Z) (data : list string) (saved : nat)
    (files : Files) :
  let n := Z.to_nat (Z.min (Z.max 0 (limit - Z.of_nat saved))
                           (Z.of_nat (length (cleaned data)))) in
  (save_loop limit data saved files).1 = (saved + n)%nat
  /\ (forall i text, cleaned data !! i = Some text -> (i < n)%nat ->
        (save_loop limit data saved files).2 !! saved_path (S (saved + i))
        = Some text)
  /\ (forall path,
        (forall i, (i < n)%nat -> path <> saved_path (S (saved + i))) ->
        (save_loop limit data saved files).2 !! path = files !! path).
Proof.
  revert saved files. induction data as [|raw rest IH]; intros saved files.
  { simpl. split_and!; [lia| |done]. intros i text Hi. lia. }
  cbn [save_loop]. destruct (Z.leb_spec limit (Z.of_nat saved)) as [Hfull|Hroom].
  { replace (Z.min _ _) with 0 by lia. simpl. split_and!; [lia| |done].
    intros i text _ Hi. lia. }
  unfold cleaned. rewrite fmap_cons, filter_cons.
  fold (cleaned rest).
  destruct (String.eqb_spec (clean_text raw) "") as [Hempty|Hfull].
  { rewrite decide_False by (by intros ?). apply IH. }
  rewrite decide_True by done.
  destruct (IH (S saved)
              (<[doc_path ("doc_" +:+ format_03d (S saved)) := clean_text raw]>
                 files)) as (Hcount & Hnew & Hold).
  fold (saved_path (S saved)) in *.
  set (n' := Z.to_nat (Z.min (Z.max 0 (limit - Z.of_nat (S saved)))
                             (Z.of_nat (length (cleaned rest))))) in *.
  replace (Z.to_nat _) with (S n')
    by (subst n'; cbn [length]; lia).
  split_and!.
  - rewrite Hcount. lia.
  - intros [|i] text Htext Hi.
    + injection Htext as <-. rewrite Hold.
      * rewrite Nat.add_0_r. apply lookup_insert_eq.
      * intros j Hj Heq. rewrite Nat.add_0_r in Heq.
        apply saved_path_inj in Heq. lia.
    + replace (saved + S i)%nat with (S saved + i)%nat by lia.
      apply Hnew; [done|lia].
  - intros path Hpath. rewrite Hold.
    + apply lookup_insert_ne. intros Heq. apply (Hpath 0%nat); [lia|].
      by rewrite Nat.add_0_r.
    + intros j Hj. replace (S saved + j)%nat with (saved + S j)%nat by lia.
      apply Hpath. lia.
Qed.

(** X23: what [save_docs] saves, for a dataset of ASCII texts.  The
    documents it keeps are the cleaned texts that are not empty, in the
    order of the dataset; it saves the first [limit] of them, or all when
    there are fewer, and none for a [limit] of zero or less, and returns
    their number; the [k]-th of them is in the file numbered [k], clean
    and not empty; no other file is touched. *)
Theorem save_docs_saves (dataset : list string) (limit : Z) (files : Files) :
  Forall ascii_text dataset ->
  let saved := (save_docs dataset limit files).1 in
  let files' := (save_docs dataset limit files).2 in
  Z.of_nat saved
  = Z.min (Z.max 0 limit) (Z.of_nat (length (cleaned dataset)))
  /\ (forall i text, cleaned dataset !! i = Some text -> (i < saved)%nat ->
        files' !! saved_path (S i) = Some text
        /\ clean text /\ text <> "")
  /\ (forall path,
        (forall i, (i < saved)%nat -> path <> saved_path (S i)) ->
        files' !! path = files !! path).
Proof.
  intros _. cbv zeta. unfold save_docs.
  destruct (save_loop_spec limit dataset 0 files) as (Hcount & Hnew & Hold).
  rewrite Z.sub_0_r in *. simpl in Hcount. rewrite Hcount.
  split_and!.
  - lia.
  - intros i text Htext Hi. split; [by apply (Hnew i)|].
    apply list_elem_of_lookup_2 in Htext.
    apply list_elem_of_filter in Htext as [Hne Htext].
    apply list_elem_of_fmap in Htext as (raw & -> & _).
    split; [apply clean_text_clean|done].
  - intros path Hpath. apply Hold. intros i Hi. by apply Hpath.
Qed.

End SaveFacts.

Section PreprocessExamples.
Import Preprocess.

Lemma ascii_text_check (s : string) :
  forallb (fun c => (nat_of_ascii c <? 128)%nat) (list_ascii_of_string s) = true ->
  ascii_text s.
Proof.
  unfold ascii_text. rewrite forallb_forall, Forall_forall.
  intros Hall c Hc. apply Nat.ltb_lt, Hall. by apply list_elem_of_In.
Qed.

Example clean_text_demo :
  clean_text <$> Demo.dataset = ["rice and beans"; ""; "quantum physics"].
Proof. reflexivity. Qed.

Lemma clean_text_normalises_witness :
  ascii_text "<b>Rice</b> and beans"
  /\ clean_text (clean_text "<b>Rice</b> and beans")
     = clean_text "<b>Rice</b> and beans".
Proof.
  assert (ascii_text "<b>Rice</b> and beans") as Ha
    by (by apply ascii_text_check).
  split; [exact Ha|].
  apply (clean_text_normalises "<b>Rice</b> and beans" Ha).
Defined.

Example save_docs_demo :
  (save_docs Demo.dataset 5 ∅).1 = 2%nat
  /\ (save_docs Demo.dataset 5 ∅).2 !! "data/docs/doc_001.txt"
     = Some "rice and beans"
  /\ (save_docs Demo.dataset 5 ∅).2 !! "data/docs/doc_002.txt"
     = Some "quantum physics"
  /\ (save_docs Demo.dataset 1 ∅).1 = 1%nat.
Proof. split_and!; by vm_compute. Qed.

Lemma save_docs_saves_witness :
  Forall ascii_text Demo.dataset
  /\ Z.of_nat (save_docs Demo.dataset 1 ∅).1
     = Z.min (Z.max 0 1) (Z.of_nat (length (cleaned Demo.dataset))).
Proof.
  assert (Forall ascii_text Demo.dataset) as Ha.
  { repeat (constructor; [by apply ascii_text_check|]). constructor. }
  split; [exact Ha|].
  apply (save_docs_saves Demo.dataset 1 ∅ Ha).
Defined.

End PreprocessExamples.
